(** * optimize_gif.py: frame thinning, dimension planning and flag parsing

    A shallow embedding of [scripts/optimize_gif.py].  Python integers are
    [Z]; Python floats are IEEE-754 binary64 values, modelled by the
    Standard Library's [spec_float] with [prec = 53] and [emax = 1024];
    exceptions are an explicit error type threaded through a small monad.
    Calls into Pillow (decoding, [convert], [resize]) are recorded
    symbolically; the palette conversion refuses a number of colours
    outside 1..256, and writing the file answers through a parameter.
    Command-line arguments are the bytes the system hands over. *)

From Stdlib Require Import ZArith List Bool Lia String Ascii QArith Qround Qminmax Sorted.
From Stdlib Require Import Qpower Lqa.
From Stdlib Require Decimal DecimalFacts DecimalString DecimalPos.
From Stdlib Require Import Floats.SpecFloat.
Import ListNotations.

Local Open Scope Z_scope.

(** ** Python exceptions and the error monad *)

Module Py.

Inductive exn : Type :=
| ZeroDivisionError
| OverflowError
| ValueError
| IndexError
| OSError.

Inductive result (A : Type) : Type :=
| Ok (a : A)
| Raise (e : exn).

Arguments Ok {A} a.
Arguments Raise {A} e.

Definition bind {A B : Type} (c : result A) (k : A -> result B) : result B :=
  match c with
  | Ok a => k a
  | Raise e => Raise e
  end.

(** [try: c  except Exception: h] *)
Definition try_except {A : Type} (c : result A) (h : A) : A :=
  match c with
  | Ok a => a
  | Raise _ => h
  end.

Definition is_ok {A : Type} (c : result A) : bool :=
  match c with
  | Ok _ => true
  | Raise _ => false
  end.

End Py.

Import Py.

Notation "x <- c ;; k" := (Py.bind c (fun x => k))
  (at level 61, c at next level, right associativity).

(** ** Python floats (binary64) *)

Module Float64.

Definition prec : Z := 53.
Definition emax : Z := 1024.

Definition float : Type := spec_float.

(** The integer [z] as a significand with exponent 0 (no rounding yet). *)
Definition raw_of_int (z : Z) : float :=
  match z with
  | Z0 => S754_zero false
  | Zpos p => S754_finite false p 0
  | Zneg p => S754_finite true p 0
  end.

Definition is_finite (x : float) : bool :=
  match x with
  | S754_zero _ | S754_finite _ _ _ => true
  | _ => false
  end.

(** [float(z)]: the nearest double, ties to even; too large raises. *)
Definition float_of_int (z : Z) : result float :=
  let x := binary_normalize prec emax z 0 false in
  if is_finite x then Ok x else Raise OverflowError.

(** [a / b] on two integers: the correctly rounded quotient of the two
    integers themselves (CPython's [long_true_divide]). *)
Definition int_truediv (a b : Z) : result float :=
  if b =? 0 then Raise ZeroDivisionError
  else
    let x := SFdiv prec emax (raw_of_int a) (raw_of_int b) in
    if is_finite x then Ok x else Raise OverflowError.

(** [z * x] with [z] an integer and [x] a float: [z] is converted first. *)
Definition int_mul_float (z : Z) (x : float) : result float :=
  fz <- float_of_int z ;;
  Ok (SFmul prec emax fz x).

(** [int(x)]: truncation toward zero. *)
Definition int_of_float (x : float) : result Z :=
  match x with
  | S754_zero _ => Ok 0
  | S754_finite s m e => Ok (cond_Zopp s (Z.shiftl (Zpos m) e))
  | S754_infinity _ => Raise OverflowError
  | S754_nan => Raise ValueError
  end.

Definition one : float := S754_finite false 4503599627370496 (-52).

(** [min(a, b, c)]: the first of the smallest items. *)
Definition min3 (a b c : float) : float :=
  let m := if SFltb b a then b else a in
  if SFltb c m then c else m.

End Float64.

Import Float64.

(** ** Pillow, as far as the script uses it

    Pixel buffers are opaque to the script; the calls it makes on them are
    kept as a term. *)

Inductive Img : Type :=
| Decoded (n : nat)
| ConvertRGBA (i : Img)
| ResizeLanczos (i : Img) (size : Z * Z)
| QuantizeAdaptive (i : Img) (colors : Z).

(** One item of [ImageSequence.Iterator(im)]: its pixels and
    [frame.info.get("duration")]. *)
Record Frame : Type := {
  frame_data : Img;
  frame_duration : option Z
}.

(** The opened image: [im.size], its own pixels, and its frames. *)
Record Image : Type := {
  im_size : Z * Z;
  im_data : Img;
  im_frames : list Frame
}.

Definition size_eqb (a b : Z * Z) : bool :=
  (fst a =? fst b) && (snd a =? snd b).

(** [x.resize(new_size, LANCZOS)] guarded by [x.size != new_size]; every
    frame of an image has the image's size. *)
Definition resize_to (size new_size : Z * Z) (x : Img) : Img :=
  if size_eqb size new_size then x else ResizeLanczos x new_size.

(** ** [optimize_gif], lines 27-29: the output size *)

Definition plan_size (w h max_width max_height : Z) : result (Z * Z) :=
  sw <- int_truediv max_width w ;;
  sh <- int_truediv max_height h ;;
  let scale := min3 sw sh one in
  fw <- int_mul_float w scale ;;
  nw <- int_of_float fw ;;
  fh <- int_mul_float h scale ;;
  nh <- int_of_float fh ;;
  Ok (Z.max 1 nw, Z.max 1 nh).

(** ** Lines 33-36: durations *)

(** [frame.info.get("duration", d)] *)
Definition duration_or (d : Z) (f : Frame) : Z :=
  match frame_duration f with
  | Some x => x
  | None => d
  end.

Definition orig_durations (frames : list Frame) : list Z :=
  map (duration_or 100) frames.

Definition sum (l : list Z) : Z := fold_left Z.add l 0.

(** [avg_duration] is the integer 100 for no frames, a float otherwise. *)
Inductive number : Type :=
| PyInt (z : Z)
| PyFloat (x : float).

Definition avg_duration (ds : list Z) : result number :=
  match ds with
  | [] => Ok (PyInt 100)
  | _ =>
      x <- int_truediv (sum ds) (Z.of_nat (List.length ds)) ;;
      Ok (PyFloat x)
  end.

Definition int_of_number (n : number) : result Z :=
  match n with
  | PyInt z => Ok z
  | PyFloat x => int_of_float x
  end.

Definition target_frame_duration (fps : Z) : result Z :=
  x <- int_truediv 1000 fps ;;
  t <- int_of_float x ;;
  Ok (Z.max 10 t).

(** Line 48: [frame.info.get("duration", int(avg_duration))]; the default
    is evaluated whether or not the frame has a duration. *)
Definition frame_dur (avg : number) (frame : Frame) : result Z :=
  d <- int_of_number avg ;;
  Ok (duration_or d frame).

(** ** Lines 38-56: the selection loop *)

(** The loop's variables: [acc] is unbound until first assigned. *)
Record LoopState : Type := {
  acc : option Z;
  frames : list Img;
  durations : list Z
}.

Definition initial_state : LoopState :=
  {| acc := None; frames := []; durations := [] |}.

Section Loop.

Variable size new_size : Z * Z.
Variable avg : number.
Variable target : Z.

Definition loop_body (i : nat) (frame : Frame) (st : LoopState)
  : result LoopState :=
  let rgba := ConvertRGBA (frame_data frame) in
  let acc0 := if Nat.eqb i 0 then Some 0 else acc st in
  dur <- frame_dur avg frame ;;
  let acc1 := match acc0 with Some a => a | None => 0 end + dur in
  if (acc1 >=? target) || Nat.eqb i 0 then
    Ok {| acc := Some 0;
          frames := frames st ++ [resize_to size new_size rgba];
          durations := durations st ++ [target] |}
  else
    Ok {| acc := Some acc1;
          frames := frames st;
          durations := durations st |}.

(** [for i, frame in enumerate(...)], from index [i] on. *)
Fixpoint loop (i : nat) (fs : list Frame) (st : LoopState)
  : result LoopState :=
  match fs with
  | [] => Ok st
  | f :: fs' =>
      st' <- loop_body i f st ;;
      loop (S i) fs' st'
  end.

End Loop.

(** The indices the loop keeps, for a fallback duration [d] and threshold
    [target]: the same decisions as [loop_body], recording [i] instead of
    the frame. *)
Fixpoint kept_indices (d target : Z) (i : nat) (fs : list Frame)
  (a : option Z) : list nat :=
  match fs with
  | [] => []
  | f :: fs' =>
      let acc0 := if Nat.eqb i 0 then Some 0 else a in
      let acc1 := match acc0 with Some a => a | None => 0 end + duration_or d f in
      if (acc1 >=? target) || Nat.eqb i 0 then
        i :: kept_indices d target (S i) fs' (Some 0)
      else
        kept_indices d target (S i) fs' (Some acc1)
  end.

(** ** Lines 33-64: what goes into the output, with the durations *)

Definition select_frames (im : Image) (new_size : Z * Z) (fps : Z)
  : result (list Img * list Z) :=
  avg <- avg_duration (orig_durations (im_frames im)) ;;
  target <- target_frame_duration fps ;;
  st <- loop (im_size im) new_size avg target 0 (im_frames im) initial_state ;;
  match frames st with
  | [] =>
      let im0 := resize_to (im_size im) new_size (ConvertRGBA (im_data im)) in
      Ok ([im0], [target])
  | _ => Ok (frames st, durations st)
  end.

(** ** [pathlib]: pure POSIX paths

    A path is its anchor (the empty string or a run of leading slashes) and
    the components after it. *)

Local Open Scope string_scope.

Record Path : Type := {
  anchor : string;
  tail_parts : list string
}.

Definition slash : ascii := "/"%char.
Definition dot : ascii := "."%char.

(** [s.split("/")] *)
Fixpoint split_slash (s : string) : list string :=
  match s with
  | EmptyString => [EmptyString]
  | String c s' =>
      if Ascii.eqb c slash then EmptyString :: split_slash s'
      else
        match split_slash s' with
        | [] => [String c EmptyString]
        | p :: ps => String c p :: ps
        end
  end.

Definition real_component (p : string) : bool :=
  negb (String.eqb p "" || String.eqb p ".").

(** Exactly two leading slashes are kept apart, otherwise one stands for
    any number of them. *)
Definition anchor_of (s : string) : string :=
  match s with
  | String a (String b (String c _)) =>
      if Ascii.eqb a slash then
        if Ascii.eqb b slash then
          if Ascii.eqb c slash then "/" else "//"
        else "/"
      else ""
  | String a (String b EmptyString) =>
      if Ascii.eqb a slash then
        if Ascii.eqb b slash then "//" else "/"
      else ""
  | String a EmptyString => if Ascii.eqb a slash then "/" else ""
  | EmptyString => ""
  end.

(** [Path(s)] *)
Definition path_of_string (s : string) : Path :=
  {| anchor := anchor_of s;
     tail_parts := filter real_component (split_slash s) |}.

(** [p.name] *)
Definition name (p : Path) : string := last (tail_parts p) "".

(** [s.rfind(c)], [None] for -1. *)
Fixpoint rfind (c : ascii) (s : string) : option nat :=
  match s with
  | EmptyString => None
  | String a s' =>
      match rfind c s' with
      | Some i => Some (S i)
      | None => if Ascii.eqb a c then Some O else None
      end
  end.

(** The index of the dot that starts the suffix, when there is one:
    [0 < i < len(name) - 1]. *)
Definition suffix_start (nm : string) : option nat :=
  match rfind dot nm with
  | Some i =>
      if (Nat.ltb 0 i && Nat.ltb (S i) (String.length nm))%bool then Some i
      else None
  | None => None
  end.

(** [p.stem] and [p.suffix] *)
Definition stem (p : Path) : string :=
  match suffix_start (name p) with
  | Some i => substring 0 i (name p)
  | None => name p
  end.

Definition suffix (p : Path) : string :=
  match suffix_start (name p) with
  | Some i => substring i (String.length (name p) - i) (name p)
  | None => ""
  end.

Fixpoint contains (c : ascii) (s : string) : bool :=
  match s with
  | EmptyString => false
  | String a s' => Ascii.eqb a c || contains c s'
  end.

(** [p.with_name(nm)] *)
Definition with_name (p : Path) (nm : string) : result Path :=
  if String.eqb (name p) "" then Raise ValueError
  else if (String.eqb nm "" || contains slash nm || String.eqb nm ".")%bool
  then Raise ValueError
  else Ok {| anchor := anchor p; tail_parts := removelast (tail_parts p) ++ [nm] |}.

(** ** Lines 66-87: quantise, name the output, save *)

(** [f.convert("P", palette=ADAPTIVE, colors=colors, ...)] on an RGBA frame
    of at least 1 by 1: Pillow quantises to [colors] entries and refuses a
    number outside 1..256 ([ValueError], "bad number of colors"), or one that
    does not fit a C [int] ([OverflowError]). *)
Definition quantize (colors : Z) (f : Img) : result Img :=
  if ((colors <? - 2 ^ 31)%Z || (2 ^ 31 - 1 <? colors)%Z)%bool
  then Raise OverflowError
  else if ((colors <? 1)%Z || (256 <? colors)%Z)%bool then Raise ValueError
  else Ok (QuantizeAdaptive f colors).

(** Lines 67-71, frame by frame. *)
Fixpoint quantize_all (colors : Z) (fs : list Img) : result (list Img) :=
  match fs with
  | [] => Ok []
  | f :: fs' =>
      q <- quantize colors f ;;
      qs <- quantize_all colors fs' ;;
      Ok (q :: qs)
  end.

(** The arguments of the one [save] call. *)
Record SaveCall : Type := {
  save_self : Img;
  save_fp : Path;
  save_all : bool;
  append_images : list Img;
  duration : list Z;
  loop_count : Z;
  optimize : bool;
  disposal : Z;
  transparency : Z
}.

Section Save.

(** Writing the file (lines 76-85), as the encoder and the file system
    answer the call. *)
Variable image_save : SaveCall -> result unit.

(** The function after line 24 ([Image.open]); the result carries the call
    that was saved next to the returned path. *)
Definition optimize_gif (im : Image) (input_path : Path)
  (max_width max_height colors fps : Z) : result (SaveCall * Path) :=
  new_size <- plan_size (fst (im_size im)) (snd (im_size im))
                        max_width max_height ;;
  sel <- select_frames im new_size fps ;;
  paletted <- quantize_all colors (fst sel) ;;
  out_path <- with_name input_path (stem input_path ++ ".optimized.gif") ;;
  match paletted with
  | [] => Raise IndexError
  | first :: rest =>
      let call :=
        {| save_self := first;
           save_fp := out_path;
           save_all := true;
           append_images := rest;
           duration := snd sel;
           loop_count := 0;
           optimize := true;
           disposal := 2;
           transparency := 0 |} in
      saved <- image_save call ;;
      Ok (call, out_path)
  end.

End Save.

(** ** [int(s)] on a command-line argument

    An argument is the bytes the system hands over.  Python decodes them as
    UTF-8, each byte outside a well-formed sequence becoming a lone
    surrogate ([surrogateescape]); [int] then reads the code points. *)

Local Open Scope N_scope.

Definition bytes_of_string (s : string) : list N :=
  map N_of_ascii (list_ascii_of_string s).

Definition continuation (b : N) : bool := (128 <=? b) && (b <=? 191).

(** The first two bytes of a well-formed sequence of three, and of four. *)
Definition three_ok (b0 b1 : N) : bool :=
  (b0 =? 224) && (160 <=? b1) && (b1 <=? 191)
  || (225 <=? b0) && (b0 <=? 236) && continuation b1
  || (b0 =? 237) && (128 <=? b1) && (b1 <=? 159)
  || (238 <=? b0) && (b0 <=? 239) && continuation b1.

Definition four_ok (b0 b1 : N) : bool :=
  (b0 =? 240) && (144 <=? b1) && (b1 <=? 191)
  || (241 <=? b0) && (b0 <=? 243) && continuation b1
  || (b0 =? 244) && (128 <=? b1) && (b1 <=? 143).

(** The code points of the bytes [bs]. *)
Fixpoint decode_utf8 (bs : list N) : list N :=
  match bs with
  | [] => []
  | b0 :: r0 =>
      if b0 <? 128 then b0 :: decode_utf8 r0
      else
        match r0 with
        | b1 :: r1 =>
            if (194 <=? b0) && (b0 <=? 223) && continuation b1
            then ((b0 - 192) * 64 + (b1 - 128)) :: decode_utf8 r1
            else
              match r1 with
              | b2 :: r2 =>
                  if three_ok b0 b1 && continuation b2
                  then ((b0 - 224) * 4096 + (b1 - 128) * 64 + (b2 - 128))
                         :: decode_utf8 r2
                  else
                    match r2 with
                    | b3 :: r3 =>
                        if four_ok b0 b1 && continuation b2 && continuation b3
                        then ((b0 - 240) * 262144 + (b1 - 128) * 4096
                              + (b2 - 128) * 64 + (b3 - 128))
                               :: decode_utf8 r3
                        else (56320 + b0) :: decode_utf8 r0
                    | [] => (56320 + b0) :: decode_utf8 r0
                    end
              | [] => (56320 + b0) :: decode_utf8 r0
              end
        | [] => (56320 + b0) :: decode_utf8 r0
        end
  end.

(** The code points from 127 on that Python counts as white space
    (Unicode 14.0, as in CPython 3.11). *)
Definition unicode_space (ch : N) : bool :=
  existsb (N.eqb ch)
    [133; 160; 5760; 8232; 8233; 8239; 8287; 12288]
  || (8192 <=? ch) && (ch <=? 8202).

(** The code point of the digit zero of every run of ten decimal digits
    outside ASCII (Unicode 14.0, as in CPython 3.11). *)
Definition decimal_zeros : list N :=
  [
    1632; 1776; 1984; 2406; 2534; 2662; 2790; 2918; 3046; 3174; 3302;
    3430; 3558; 3664; 3792; 3872; 4160; 4240; 6112; 6160; 6470; 6608;
    6784; 6800; 6992; 7088; 7232; 7248; 42528; 43216; 43264; 43472;
    43504; 43600; 44016; 65296; 66720; 68912; 69734; 69872; 69942;
    70096; 70384; 70736; 70864; 71248; 71360; 71472; 71904; 72016;
    72784; 73040; 73120; 92768; 92864; 93008; 120782; 120792; 120802;
    120812; 120822; 123200; 123632; 125264; 130032].

(** [Py_UNICODE_TODECIMAL] outside ASCII *)
Definition unicode_decimal (ch : N) : option N :=
  match find (fun z => (z <=? ch) && (ch <? z + 10)) decimal_zeros with
  | Some z => Some (ch - z)
  | None => None
  end.

(** What [int] hands to the parser for a string that is not all ASCII:
    white space becomes a blank, a decimal digit its ASCII digit, and the
    first other code point from 127 on ends the text with a [?]. *)
Fixpoint to_ascii_digits (s : list N) : list N :=
  match s with
  | [] => []
  | ch :: s' =>
      if ch <? 127 then ch :: to_ascii_digits s'
      else if unicode_space ch then 32 :: to_ascii_digits s'
      else
        match unicode_decimal ch with
        | Some d => (48 + d) :: to_ascii_digits s'
        | None => [63]
        end
  end.

(** C's [isspace]: tab, line feed, vertical tab, form feed, carriage
    return and blank. *)
Definition c_isspace (c : N) : bool := (9 <=? c) && (c <=? 13) || (c =? 32).

Fixpoint lstrip (s : list N) : list N :=
  match s with
  | c :: s' => if c_isspace c then lstrip s' else s
  | [] => []
  end.

Definition underscore : N := 95.

(** The run of digits and single underscores at the front of [s]: its
    value, its number of digits and what follows it; nothing when two
    underscores meet or the run ends with one.  [prev] is the character
    before. *)
Fixpoint scan_digits (s : list N) (value digits : Z) (prev : N)
  : option (Z * Z * list N) :=
  match s with
  | c :: s' =>
      if (48 <=? c) && (c <=? 57)
      then scan_digits s' (10 * value + Z.of_N (c - 48))%Z (digits + 1)%Z c
      else if c =? underscore then
        if prev =? underscore then None
        else scan_digits s' value digits c
      else if prev =? underscore then None
      else Some (value, digits, s)
  | [] => if prev =? underscore then None else Some (value, digits, [])
  end.

(** [sys.get_int_max_str_digits()], left at its default. *)
Definition int_max_str_digits : Z := 4300.

(** [PyLong_FromString] in base 10: leading white space, one sign, digits
    with single underscores between them (not more than
    [int_max_str_digits] digits), trailing white space, and nothing else. *)
Definition long_from_string (s : list N) : option Z :=
  let s1 := lstrip s in
  let signed :=
    match s1 with
    | c :: rest =>
        if c =? 43 then (false, rest)
        else if c =? 45 then (true, rest)
        else (false, s1)
    | [] => (false, s1)
    end in
  match snd signed with
  | c :: _ => if c =? underscore then None else
      match scan_digits (snd signed) 0 0 0 with
      | Some (v, digits, rest) =>
          if (int_max_str_digits <? digits)%Z then None
          else if (digits =? 0)%Z then None
          else if forallb c_isspace rest
               then Some (if fst signed then (- v)%Z else v)
               else None
      | None => None
      end
  | [] => None
  end.

(** [int(s)] *)
Definition py_int (s : string) : result Z :=
  let text := decode_utf8 (bytes_of_string s) in
  let ascii_text :=
    if forallb (fun ch => ch <? 128) text then text
    else to_ascii_digits text in
  match long_from_string ascii_text with
  | Some v => Ok v
  | None => Raise ValueError
  end.

Local Close Scope N_scope.

(** ** [main]: the command line *)

(** [name in args] and [args.index(name)] *)
Fixpoint index (args : list string) (nm : string) : option nat :=
  match args with
  | [] => None
  | a :: args' =>
      if String.eqb a nm then Some O
      else option_map S (index args' nm)
  end.

(** [args[i]] for [i >= 0] *)
Definition item (args : list string) (i : nat) : result string :=
  match nth_error args i with
  | Some a => Ok a
  | None => Raise IndexError
  end.

Definition get_flag (args : list string) (nm : string) (default : Z) : Z :=
  match index args nm with
  | Some idx =>
      try_except (a <- item args (idx + 1) ;; py_int a) default
  | None => default
  end.

(** What [main] ends with. *)
Inductive Outcome : Type :=
| Exit (code : Z)
| Printed (out : Path) (call : SaveCall)
| Uncaught (e : exn).

Section Main.

(** The file system, the decoder and the encoder, as [main] sees them. *)
Variable path_exists : Path -> bool.
Variable image_open : Path -> result Image.
Variable image_save : SaveCall -> result unit.

Definition main (argv : list string) : Outcome :=
  match argv with
  | _ :: arg1 :: args =>
      let input_path := path_of_string arg1 in
      if negb (path_exists input_path) then Exit 2
      else
        let max_width := get_flag args "--max-width" 480 in
        let max_height := get_flag args "--max-height" 480 in
        let colors := get_flag args "--colors" 128 in
        let fps := get_flag args "--fps" 12 in
        match
          (im <- image_open input_path ;;
           optimize_gif image_save im input_path
                        max_width max_height colors fps)
        with
        | Ok (call, out) => Printed out call
        | Raise e => Uncaught e
        end
  | _ => Exit 1
  end.

End Main.

(** The four values [main] passes on. *)
Definition parsed_flags (args : list string) : Z * Z * Z * Z :=
  (get_flag args "--max-width" 480,
   get_flag args "--max-height" 480,
   get_flag args "--colors" 128,
   get_flag args "--fps" 12).

(** ** The formulas of the specification, in exact arithmetic *)

Local Open Scope Z_scope.

(** [round(q)]: to the nearest integer, halves to the even one. *)
Definition py_round (q : Q) : Z :=
  let f := Qfloor q in
  match Qcompare (q - inject_Z f) (1 # 2) with
  | Lt => f
  | Gt => f + 1
  | Eq => if Z.even f then f else f + 1
  end.

(** [max(10, round(1000 / target_fps))] *)
Definition spec_target_duration (target_fps : Z) : Z :=
  Z.max 10 (py_round (1000 # Z.to_pos target_fps)).

(** [max(1, floor(source_dimension * min(max_width / source_width,
    max_height / source_height, 1.0)))] *)
Definition spec_dimension (source_dimension source_width source_height
                           max_width max_height : Z) : Z :=
  let scale :=
    Qmin (Qmin (max_width # Z.to_pos source_width)
               (max_height # Z.to_pos source_height)) 1 in
  Z.max 1 (Qfloor (inject_Z source_dimension * scale)).

(** [<input-stem>.optimized.<ext>], with [<ext>] the input's own suffix. *)
Definition spec_output_name (p : Path) : string :=
  (stem p ++ ".optimized" ++ suffix p)%string.

(** ** Notions used to state facts about binary64 rounding *)

Definition fexp64 (x : Z) : Z := Z.max (x - 53) (-1074).

(** Whether bits have been shifted out of a significand. *)
Definition inexact (r : shr_record) : bool := shr_r r || shr_s r.

(** A sign, a significand of at most 53 bits (or exactly [2 ^ 53], after a
    carry) and an exponent, as the double they denote. *)
Definition pack (sx : bool) (m2 F : Z) : float :=
  if m2 =? 0 then S754_zero sx
  else if m2 <? 2 ^ 53 then
    if F <=? 971 then S754_finite sx (Z.to_pos m2) F else S754_infinity sx
  else
    if F + 1 <=? 971 then S754_finite sx (Z.to_pos (m2 / 2)) (F + 1)
    else S754_infinity sx.

(** [2 ^ e] for [e >= 0], and 1 below. *)
Definition pow2p (e : Z) : Z := 2 ^ Z.max 0 e.

(** [near N D F m]: the integer [m] is less than one away from
    [(N / D) / 2 ^ F], for the rational [N / D]. *)
Definition near (N D F m : Z) : Prop :=
  (m - 1) * (D * pow2p F) < N * pow2p (- F) < (m + 1) * (D * pow2p F).

(** [F] is the exponent of the binary64 format at [N / D]: the least one, or
    the one that leaves 53 bits. *)
Definition canonical_for (N D F : Z) : Prop :=
  F = -1074 \/ 2 ^ 52 * (D * pow2p F) <= N * pow2p (- F).

Definition sign_of (x : float) : bool :=
  match x with
  | S754_zero s | S754_infinity s | S754_finite s _ _ => s
  | S754_nan => false
  end.

(** [x] is zero or finite, with at most 53 significant bits and magnitude at
    most the integer [B]. *)
Definition mag_le (x : float) (B : Z) : Prop :=
  match x with
  | S754_zero _ => True
  | S754_finite _ m e =>
      Zpos m < 2 ^ 53 /\ Zpos m * pow2p e <= B * pow2p (- e)
  | _ => False
  end.

(** ** Notions used to state facts about the selection *)

(** Lines 35 and 48 together: the duration the loop uses for frame [f] of
    an image whose frames are [fs]. *)
Definition used_duration (fs : list Frame) (f : Frame) : result Z :=
  avg <- avg_duration (orig_durations fs) ;;
  frame_dur avg f.

(** Lines 42 and 53-55: what is appended for a kept frame. *)
Definition output_frame (size new_size : Z * Z) (f : Frame) : Img :=
  resize_to size new_size (ConvertRGBA (frame_data f)).

(** The frame at index [j]. *)
Definition frame_at (fs : list Frame) (j : nat) : Frame :=
  nth j fs {| frame_data := Decoded 0; frame_duration := None |}.

(** Every duration fits a double. *)
Definition durations_fit (fs : list Frame) : Prop :=
  Forall (fun d => Z.abs d <= 2 ^ 1023) (orig_durations fs).

(** Scenario B of the specification: ten frames of 20 ms each. *)
Definition scenario_b (size : Z * Z) (data : Img) (pixels : nat -> Img)
  : Image :=
  {| im_size := size;
     im_data := data;
     im_frames :=
       map (fun n => {| frame_data := pixels n; frame_duration := Some 20 |})
           (seq 0 10) |}.

(** ** Notions used to state facts about the command line *)

(** The argument after the first [nm] is there and is not an integer. *)
Definition unparseable_value (args : list string) (nm : string) : Prop :=
  exists idx v e,
    index args nm = Some idx /\
    nth_error args (idx + 1) = Some v /\
    py_int v = Raise e.

(** ** The value of a double, for the bounds on the planned size *)

(** The rational a finite double stands for (0 for the others). *)
Definition value (x : Float64.float) : Q :=
  match x with
  | S754_finite s m e =>
      ((if s then -1 else 1) * inject_Z (Zpos m) * Qpower 2 e)%Q
  | _ => 0%Q
  end.

(** Zero, or positive with its significand and exponent in canonical
    form. *)
Definition canonical (x : Float64.float) : Prop :=
  match x with
  | S754_zero _ => True
  | S754_finite s m e =>
      s = false /\ Zpos m < 2 ^ 53 /\ -1074 <= e /\
      (e = -1074 \/ 2 ^ 52 <= Zpos m)
  | _ => False
  end.

(** One part in [2 ^ 52]: the relative spacing of the doubles. *)
Definition ulp_ratio : Q := (1 # 4503599627370496)%Q.

(** ** Integers as the command line writes them *)

(** [str(z)]: the decimal digits of [z], with [-] in front when negative. *)
Definition decimal (z : Z) : string := DecimalString.NilZero.string_of_int (Z.to_int z).

(** The integer the digits [d] denote, continuing from [v]. *)
Fixpoint uint_value (d : Decimal.uint) (v : Z) : Z :=
  match d with
  | Decimal.Nil => v
  | Decimal.D0 d => uint_value d (10 * v + 0)
  | Decimal.D1 d => uint_value d (10 * v + 1)
  | Decimal.D2 d => uint_value d (10 * v + 2)
  | Decimal.D3 d => uint_value d (10 * v + 3)
  | Decimal.D4 d => uint_value d (10 * v + 4)
  | Decimal.D5 d => uint_value d (10 * v + 5)
  | Decimal.D6 d => uint_value d (10 * v + 6)
  | Decimal.D7 d => uint_value d (10 * v + 7)
  | Decimal.D8 d => uint_value d (10 * v + 8)
  | Decimal.D9 d => uint_value d (10 * v + 9)
  end.

(** * Facts about binary64 arithmetic *)

Lemma fexp_eq x : fexp prec emax x = fexp64 x.
Proof. reflexivity. Qed.

Lemma digits2_pos_bounds p :
  2 ^ (Zpos (digits2_pos p) - 1) <= Zpos p < 2 ^ Zpos (digits2_pos p).
Proof.
  induction p as [p IH | p IH | ]; cbn [digits2_pos].
  - rewrite Pos2Z.inj_succ.
    replace (Z.succ (Zpos (digits2_pos p)) - 1) with (Z.succ (Zpos (digits2_pos p) - 1)) by lia.
    rewrite !Z.pow_succ_r by lia. lia.
  - rewrite Pos2Z.inj_succ.
    replace (Z.succ (Zpos (digits2_pos p)) - 1) with (Z.succ (Zpos (digits2_pos p) - 1)) by lia.
    rewrite !Z.pow_succ_r by lia. lia.
  - cbn. lia.
Qed.

Lemma Zdigits2_bounds m :
  0 < m -> 2 ^ (Zdigits2 m - 1) <= m < 2 ^ Zdigits2 m.
Proof.
  destruct m as [ | p | p]; try lia. intros _. apply digits2_pos_bounds.
Qed.

Lemma Zdigits2_pos m : 0 < m -> 0 < Zdigits2 m.
Proof. destruct m; cbn; lia. Qed.

Lemma Zdigits2_nonneg m : 0 <= Zdigits2 m.
Proof. destruct m; cbn; lia. Qed.

(** [k] binary digits are needed from [2 ^ (k - 1)] on. *)
Lemma Zdigits2_ge m k : 0 <= k -> 2 ^ k <= m -> k < Zdigits2 m.
Proof.
  intros Hk Hm.
  assert (0 < m) by (pose proof (Z.pow_pos_nonneg 2 k); lia).
  pose proof (Zdigits2_bounds m H) as [_ Hu].
  destruct (Z_lt_le_dec k (Zdigits2 m)) as [ | Hle]; [assumption | ].
  pose proof (Z.pow_le_mono_r 2 _ _ ltac:(lia) Hle). lia.
Qed.

Lemma Zdigits2_le m k : 0 <= k -> 0 <= m < 2 ^ k -> Zdigits2 m <= k.
Proof.
  intros Hk [Hm0 Hm].
  destruct (Z.eq_dec m 0) as [-> | Hne]; [cbn; lia | ].
  pose proof (Zdigits2_bounds m ltac:(lia)) as [Hl _].
  destruct (Z_le_gt_dec (Zdigits2 m) k) as [ | Hgt]; [assumption | ].
  pose proof (Z.pow_le_mono_r 2 k (Zdigits2 m - 1) ltac:(lia) ltac:(lia)). lia.
Qed.

Lemma odd_false_mod2 x : Z.odd x = false <-> x mod 2 = 0.
Proof.
  rewrite Zmod_odd. destruct (Z.odd x); split; intro; congruence || lia.
Qed.

Lemma shr_1_spec r :
  0 <= shr_m r ->
  shr_m (shr_1 r) = shr_m r / 2 /\
  inexact (shr_1 r) = Z.odd (shr_m r) || inexact r.
Proof.
  destruct r as [m r s]. cbn [shr_m]. intros Hm.
  destruct m as [ | [p | p | ] | p]; try lia; cbn [shr_1 shr_m inexact shr_r shr_s Z.odd orb].
  - split; reflexivity.
  - split; [ | reflexivity]. apply Z.div_unique with (r := 1); lia.
  - split; [ | reflexivity]. apply Z.div_unique with (r := 0); lia.
  - split; reflexivity.
Qed.

Lemma iter_pos_nat {A : Type} (f : A -> A) p x :
  iter_pos f p x = Nat.iter (Pos.to_nat p) f x.
Proof.
  revert x. induction p as [p IH | p IH | ]; intro x; cbn [iter_pos].
  - rewrite !IH, Pos2Nat.inj_xI, <- Nat.iter_succ_r.
    replace (S (2 * Pos.to_nat p))%nat with (Pos.to_nat p + S (Pos.to_nat p))%nat by lia.
    now rewrite Nat.iter_add.
  - rewrite !IH, Pos2Nat.inj_xO.
    replace (2 * Pos.to_nat p)%nat with (Pos.to_nat p + Pos.to_nat p)%nat by lia.
    now rewrite Nat.iter_add.
  - reflexivity.
Qed.

Lemma mod_pow2_succ m k :
  0 <= k ->
  (m mod 2 ^ (k + 1) = 0 <-> m mod 2 ^ k = 0 /\ (m / 2 ^ k) mod 2 = 0).
Proof.
  intro Hk.
  assert (Hp : 0 < 2 ^ k) by (apply Z.pow_pos_nonneg; lia).
  rewrite Z.pow_add_r, Z.pow_1_r by lia.
  rewrite Z.rem_mul_r by lia.
  pose proof (Z.mod_pos_bound m (2 ^ k) Hp).
  pose proof (Z.mod_pos_bound (m / 2 ^ k) 2 ltac:(lia)).
  split; [ | intros [-> ->]; lia].
  intro H1. nia.
Qed.

Lemma iter_shr_spec n r :
  0 <= shr_m r ->
  0 <= shr_m (Nat.iter n shr_1 r) /\
  shr_m (Nat.iter n shr_1 r) = shr_m r / 2 ^ Z.of_nat n /\
  (inexact (Nat.iter n shr_1 r) = false <->
   inexact r = false /\ shr_m r mod 2 ^ Z.of_nat n = 0).
Proof.
  intro Hm. induction n as [ | n IH].
  - cbn [Nat.iter Z.of_nat]. rewrite Z.pow_0_r, Z.div_1_r, Z.mod_1_r. tauto.
  - destruct IH as (H0 & Hd & Hi).
    rewrite !Nat.iter_succ. destruct (shr_1_spec _ H0) as [Hs1 Hs2].
    rewrite Hs1, Hs2, Nat2Z.inj_succ, <- Z.add_1_r.
    assert (Hp : 0 < 2 ^ Z.of_nat n) by (apply Z.pow_pos_nonneg; lia).
    split; [apply Z.div_pos; lia | ].
    split.
    + rewrite Hd, Z.div_div, Z.pow_add_r, Z.pow_1_r by lia. reflexivity.
    + rewrite orb_false_iff, Hi, odd_false_mod2, Hd, mod_pow2_succ by lia. tauto.
Qed.

Lemma shr_fexp_spec m e l :
  0 <= m -> e <= fexp64 (Zdigits2 m + e) ->
  exists r,
    shr_fexp prec emax m e l = (r, fexp64 (Zdigits2 m + e)) /\
    shr_m r = m / 2 ^ (fexp64 (Zdigits2 m + e) - e) /\
    (inexact r = false <->
     l = loc_Exact /\ m mod 2 ^ (fexp64 (Zdigits2 m + e) - e) = 0).
Proof.
  intros Hm He. unfold shr_fexp, shr. rewrite fexp_eq.
  set (F := fexp64 (Zdigits2 m + e)) in *.
  assert (Hrec : shr_m (shr_record_of_loc m l) = m) by (destruct l as [ | [ | | ]]; reflexivity).
  assert (Hin : inexact (shr_record_of_loc m l) = false <-> l = loc_Exact)
    by (destruct l as [ | [ | | ]]; cbn; split; congruence).
  destruct (F - e) as [ | p | p] eqn:Hn; try lia.
  - exists (shr_record_of_loc m l).
    rewrite Z.pow_0_r, Z.div_1_r, Z.mod_1_r.
    replace F with e by lia. tauto.
  - exists (iter_pos shr_1 p (shr_record_of_loc m l)).
    replace (e + Z.pos p) with F by lia.
    rewrite iter_pos_nat.
    destruct (iter_shr_spec (Pos.to_nat p) (shr_record_of_loc m l)) as (_ & Hd & Hi);
      [rewrite Hrec; assumption | ].
    rewrite positive_nat_Z, Hrec in Hd, Hi. rewrite Hin in Hi. tauto.
Qed.

Lemma shr_fexp_noshift m e l :
  fexp64 (Zdigits2 m + e) <= e ->
  shr_fexp prec emax m e l = (shr_record_of_loc m l, e).
Proof.
  intro H. unfold shr_fexp, shr. rewrite fexp_eq.
  destruct (fexp64 (Zdigits2 m + e) - e) eqn:Hn; try reflexivity; lia.
Qed.

Lemma round_nearest_even_spec r :
  shr_m r <= round_nearest_even (shr_m r) (loc_of_shr_record r) <= shr_m r + 1 /\
  (inexact r = false ->
   round_nearest_even (shr_m r) (loc_of_shr_record r) = shr_m r).
Proof.
  destruct r as [m [ | ] [ | ]]; cbn; try destruct (Z.even m); split; try lia; congruence.
Qed.

Lemma binary_round_aux_spec sx m e l :
  0 <= m -> e <= fexp64 (Zdigits2 m + e) ->
  let F := fexp64 (Zdigits2 m + e) in
  let m1 := m / 2 ^ (F - e) in
  exists m2,
    binary_round_aux prec emax sx m e l = pack sx m2 F /\
    m1 <= m2 <= m1 + 1 /\
    (l = loc_Exact -> m mod 2 ^ (F - e) = 0 -> m2 = m1) /\
    0 <= m1 < 2 ^ 53 /\
    (F = -1074 \/ 2 ^ 52 <= m1).
Proof.
  intros Hm He F m1.
  assert (Hn : 0 <= F - e) by (subst F; lia).
  assert (Hpn : 0 < 2 ^ (F - e)) by (apply Z.pow_pos_nonneg; lia).
  assert (Hm1 : 0 <= m1 < 2 ^ 53 /\ (F = -1074 \/ 2 ^ 52 <= m1)).
  { destruct (Z.eq_dec m 0) as [-> | Hne].
    - subst m1. rewrite Z.div_0_l by lia. split; [lia | ].
      left. subst F. cbn [Zdigits2] in *. unfold fexp64 in *. lia.
    - pose proof (Zdigits2_bounds m ltac:(lia)) as [Hdl Hdu].
      pose proof (Zdigits2_pos m ltac:(lia)) as Hdp.
      split; [split | ].
      + apply Z.div_pos; lia.
      + apply Z.div_lt_upper_bound; [lia | ].
        rewrite <- Z.pow_add_r by lia.
        eapply Z.lt_le_trans; [exact Hdu | ].
        apply Z.pow_le_mono_r; [lia | ]. subst F. unfold fexp64. lia.
      + destruct (Z.eq_dec F (-1074)) as [ | HF]; [now left | right].
        apply Z.div_le_lower_bound; [lia | ].
        rewrite <- Z.pow_add_r by lia.
        eapply Z.le_trans; [ | exact Hdl].
        apply Z.pow_le_mono_r; [lia | ]. subst F. unfold fexp64 in *. lia. }
  destruct (shr_fexp_spec m e l Hm He) as (r & Hr & Hrm & Hri).
  fold F in Hr, Hrm, Hri. fold m1 in Hrm.
  destruct (round_nearest_even_spec r) as [Hb Hex].
  set (m2 := round_nearest_even (shr_m r) (loc_of_shr_record r)) in *.
  rewrite Hrm in Hb, Hex.
  exists m2.
  split; [ | split; [exact Hb | split; [ | exact Hm1]]].
  2:{ intros Hl Hmod. apply Hex. apply Hri. now split. }
  unfold binary_round_aux. rewrite Hr. fold m2.
  assert (HF : -1074 <= F) by (subst F; unfold fexp64; lia).
  destruct (Z_lt_le_dec m2 (2 ^ 53)) as [Hlt | Hge].
  - rewrite shr_fexp_noshift.
    2:{ pose proof (Zdigits2_le m2 53 ltac:(lia) ltac:(lia)). unfold fexp64. lia. }
    cbn [shr_record_of_loc shr_m]. unfold pack.
    destruct m2 as [ | p | p] eqn:E; try lia; [reflexivity | ].
    replace (Z.pos p =? 0) with false by (symmetry; apply Z.eqb_neq; lia).
    replace (Z.pos p <? 2 ^ 53) with true by (symmetry; apply Z.ltb_lt; lia).
    reflexivity.
  - assert (E : m2 = 2 ^ 53) by lia.
    rewrite E. unfold pack.
    replace (2 ^ 53 =? 0) with false by reflexivity.
    replace (2 ^ 53 <? 2 ^ 53) with false by reflexivity.
    unfold shr_fexp, shr. rewrite fexp_eq.
    replace (fexp64 (Zdigits2 (2 ^ 53) + F) - F) with 1
      by (change (Zdigits2 (2 ^ 53)) with 54; unfold fexp64; lia).
    reflexivity.
Qed.

Lemma pow2p_pos e : 0 < pow2p e.
Proof. apply Z.pow_pos_nonneg; lia. Qed.

Lemma pow2p_nonneg e : 0 <= e -> pow2p e = 2 ^ e.
Proof. intro. unfold pow2p. now rewrite Z.max_r. Qed.

Lemma pow2p_nonpos e : e <= 0 -> pow2p e = 1.
Proof. intro. unfold pow2p. now rewrite Z.max_l. Qed.

Lemma new_location_exact b r :
  new_location b r = loc_Exact <-> r = 0.
Proof.
  unfold new_location, new_location_even, new_location_odd.
  destruct (Z.even b); destruct (Z.eqb_spec r 0); split; intro; try easy;
    try (destruct (2 * r + 1 ?= b); discriminate).
Qed.

Lemma div_core_spec a b :
  0 < a -> 0 < b ->
  exists s q r l,
    SFdiv_core_binary prec emax a 0 b 0 = (q, - s, l) /\
    0 <= s /\ a * 2 ^ s = b * q + r /\ 0 <= r < b /\ 0 <= q /\
    (l = loc_Exact <-> r = 0) /\
    - s <= fexp64 (Zdigits2 q + - s).
Proof.
  intros Ha Hb. unfold SFdiv_core_binary. rewrite fexp_eq.
  set (d1 := Zdigits2 a). set (d2 := Zdigits2 b).
  replace (d1 + 0 - (d2 + 0)) with (d1 - d2) by lia.
  replace (0 - 0) with 0 by lia.
  set (e' := Z.min (fexp64 (d1 - d2)) 0).
  set (s := 0 - e').
  assert (Hs : 0 <= s) by (subst s e'; lia).
  assert (Hm' : match s with Z.pos _ => Z.shiftl a s | 0 => a | Z.neg _ => 0 end = a * 2 ^ s).
  { destruct s eqn:E; try lia.
    rewrite Z.shiftl_mul_pow2 by lia. reflexivity. }
  rewrite Hm'.
  pose proof (Z_div_mod (a * 2 ^ s) b ltac:(lia)) as Hdm.
  destruct (Z.div_eucl (a * 2 ^ s) b) as [q r]. destruct Hdm as [Hdm Hr].
  assert (Hps : 0 < 2 ^ s) by (apply Z.pow_pos_nonneg; lia).
  assert (Hq : 0 <= q) by nia.
  exists s, q, r, (new_location b r).
  replace (- s) with e' by (subst s; lia).
  split; [reflexivity | ].
  split; [assumption | ]. split; [assumption | ]. split; [assumption | ].
  split; [assumption | ]. split; [apply new_location_exact | ].
  pose proof (Zdigits2_bounds a Ha) as [Hal Hau]. fold d1 in Hal, Hau.
  pose proof (Zdigits2_bounds b Hb) as [Hbl Hbu]. fold d2 in Hbl, Hbu.
  pose proof (Zdigits2_pos a Ha). pose proof (Zdigits2_pos b Hb).
  destruct (Z_le_gt_dec (d1 + s - d2) 0) as [Hsmall | Hbig].
  - assert (e' = -1074) by (subst s e'; unfold fexp64 in *; lia).
    unfold fexp64. lia.
  - assert (Hk : d1 + s - d2 - 1 < Zdigits2 q).
    { apply Zdigits2_ge; [lia | ].
      assert (Eq : q = a * 2 ^ s / b) by (apply Z.div_unique with (r := r); lia).
      rewrite Eq. apply Z.div_le_lower_bound; [lia | ].
      assert (2 ^ (d1 + s - d2 - 1) * 2 ^ d2 = 2 ^ (d1 - 1) * 2 ^ s).
      { rewrite <- !Z.pow_add_r by lia. f_equal. lia. }
      assert (0 < 2 ^ (d1 + s - d2 - 1)) by (apply Z.pow_pos_nonneg; lia).
      nia. }
    subst e' s. unfold fexp64 in *. lia.
Qed.

Lemma scaled_form a b s F :
  0 <= s -> 0 <= F + s ->
  exists c, 0 < c /\
    a * 2 ^ s = a * pow2p (- F) * c /\
    b * 2 ^ (F + s) = b * pow2p F * c.
Proof.
  intros Hs Hn. destruct (Z_lt_le_dec F 0) as [Hneg | Hpos].
  - exists (2 ^ (F + s)). split; [apply Z.pow_pos_nonneg; lia | ].
    rewrite pow2p_nonneg, pow2p_nonpos by lia.
    split; [ | lia].
    rewrite <- Z.mul_assoc, <- Z.pow_add_r by lia. do 2 f_equal. lia.
  - exists (2 ^ s). split; [apply Z.pow_pos_nonneg; lia | ].
    rewrite pow2p_nonpos, pow2p_nonneg by lia.
    split; [lia | ].
    rewrite <- Z.mul_assoc, <- Z.pow_add_r by lia. reflexivity.
Qed.

Lemma SFdiv_spec sa pa sb pb :
  exists m2 F,
    SFdiv prec emax (S754_finite sa pa 0) (S754_finite sb pb 0)
      = pack (xorb sa sb) m2 F /\
    0 <= m2 <= 2 ^ 53 /\ -1074 <= F /\ (F = -1074 \/ 2 ^ 52 <= m2) /\
    near (Zpos pa) (Zpos pb) F m2 /\
    canonical_for (Zpos pa) (Zpos pb) F.
Proof.
  set (a := Zpos pa). set (b := Zpos pb).
  destruct (div_core_spec a b) as (s & q & r & l & Hcore & Hs & Hdiv & Hr & Hq & Hl & Hprec);
    [subst a; lia | subst b; lia | ].
  destruct (binary_round_aux_spec (xorb sa sb) q (- s) l Hq Hprec)
    as (m2 & Hres & Hb & Hex & Hm1 & Hcan).
  cbv zeta in *.
  set (F := fexp64 (Zdigits2 q + - s)) in *.
  replace (F - - s) with (F + s) in * by lia.
  assert (Hn : 0 <= F + s) by lia.
  set (P := 2 ^ (F + s)) in *.
  assert (HP : 0 < P) by (apply Z.pow_pos_nonneg; lia).
  set (m1 := q / P) in *.
  pose proof (Z.div_mod q P ltac:(lia)) as Hqm. fold m1 in Hqm.
  pose proof (Z.mod_pos_bound q P HP) as Hqr.
  assert (Hb0 : 0 < b) by (subst b; lia).
  assert (HL : (m2 - 1) * (b * P) < a * 2 ^ s).
  { rewrite Hdiv. destruct (Z.eq_dec m2 m1) as [-> | Hne]; [nia | ].
    assert (m2 = m1 + 1) by lia. subst m2.
    destruct (Z.eq_dec r 0) as [Hr0 | Hr0].
    - destruct (Z.eq_dec (q mod P) 0) as [Hq0 | Hq0].
      + exfalso. apply Hne. apply Hex; [now apply Hl | assumption].
      + nia.
    - nia. }
  assert (HU : a * 2 ^ s < (m2 + 1) * (b * P)).
  { rewrite Hdiv. nia. }
  assert (HC : F = -1074 \/ 2 ^ 52 * (b * P) <= a * 2 ^ s).
  { destruct Hcan as [ | Hc]; [now left | right]. rewrite Hdiv. nia. }
  destruct (scaled_form a b s F Hs Hn) as (c & Hc & Ea & Eb).
  fold P in Eb. rewrite Ea, Eb in HL, HU, HC.
  exists m2, F.
  split; [unfold SFdiv; change (Z.pos pa) with a; change (Z.pos pb) with b; rewrite Hcore; exact Hres | ].
  split; [lia | ]. split; [subst F; unfold fexp64; lia | ].
  split; [destruct Hcan; [now left | right; lia] | ].
  split.
  - unfold near. fold a b. split.
    + apply Z.mul_lt_mono_pos_r with (p := c); [assumption | ]. lia.
    + apply Z.mul_lt_mono_pos_r with (p := c); [assumption | ]. lia.
  - destruct HC as [ | HC]; [now left | right]. fold a b.
    apply Z.mul_le_mono_pos_r with (p := c); [assumption | ]. lia.
Qed.

(** A bound [B = mB * 2 ^ eB] that is itself a double is not crossed by
    rounding. *)
Lemma near_upper N D F m mB eB :
  0 < D -> near N D F m -> canonical_for N D F ->
  0 <= mB < 2 ^ 53 -> 0 <= eB ->
  N <= mB * 2 ^ eB * D ->
  m * pow2p F <= mB * 2 ^ eB * pow2p (- F).
Proof.
  intros HD [HL _] HC HmB HeB HN. unfold canonical_for in HC.
  assert (HpB : 0 < 2 ^ eB) by (apply Z.pow_pos_nonneg; lia).
  destruct (Z_lt_le_dec F 0) as [Hneg | Hpos].
  - rewrite (pow2p_nonpos F) in * by lia. rewrite (pow2p_nonneg (- F)) in * by lia.
    assert (0 < 2 ^ (- F)) by (apply Z.pow_pos_nonneg; lia).
    assert ((m - 1) * D < mB * 2 ^ eB * 2 ^ (- F) * D) by nia.
    assert (m - 1 < mB * 2 ^ eB * 2 ^ (- F))
      by (apply Z.mul_lt_mono_pos_r with (p := D); assumption).
    lia.
  - rewrite (pow2p_nonneg F) in * by lia. rewrite (pow2p_nonpos (- F)) in * by lia.
    assert (HpF : 0 < 2 ^ F) by (apply Z.pow_pos_nonneg; lia).
    destruct (Z_le_gt_dec F eB) as [Hle | Hgt].
    + assert (E : 2 ^ eB = 2 ^ (eB - F) * 2 ^ F)
        by (rewrite <- Z.pow_add_r by lia; f_equal; lia).
      assert (0 < 2 ^ (eB - F)) by (apply Z.pow_pos_nonneg; lia).
      rewrite E in HN |- *. clear E HpB HC.
      generalize dependent (2 ^ (eB - F)). generalize dependent (2 ^ F).
      intros P HL HP X HN HX.
      assert ((m - 1) * (P * D) < mB * X * (P * D)).
      { replace ((m - 1) * (P * D)) with ((m - 1) * (D * P)) by ring.
        replace (mB * X * (P * D)) with (mB * (X * P) * D) by ring. lia. }
      assert (0 < P * D) by (apply Z.mul_pos_pos; assumption).
      assert (m - 1 < mB * X) by (apply Z.mul_lt_mono_pos_r with (p := P * D); assumption).
      nia.
    + exfalso. destruct HC as [ | HC]; [lia | ].
      assert (E : 2 ^ F = 2 ^ (F - eB - 1) * (2 * 2 ^ eB)).
      { rewrite <- (Z.pow_succ_r 2 eB), <- Z.pow_add_r by lia. f_equal. lia. }
      assert (0 < 2 ^ (F - eB - 1)) by (apply Z.pow_pos_nonneg; lia).
      assert (2 ^ 52 * 2 ^ F * D <= mB * 2 ^ eB * D) by lia.
      assert (H1 : 2 ^ 52 * 2 ^ F <= mB * 2 ^ eB)
        by (apply Z.mul_le_mono_pos_r with (p := D); assumption).
      rewrite E in H1. clear - H1 HmB H HpB.
      generalize dependent (2 ^ (F - eB - 1)). generalize dependent (2 ^ eB).
      intros Q HQ K HK H1.
      assert (1 * Q <= K * Q) by (apply Z.mul_le_mono_nonneg_r; lia).
      change (2 ^ 52) with 4503599627370496 in H1.
      change (2 ^ 53) with 9007199254740992 in HmB.
      nia.
Qed.

Lemma pack_finite sx m F B :
  0 <= m <= 2 ^ 53 -> (F = -1074 \/ 2 ^ 52 <= m) ->
  m * pow2p F <= B * pow2p (- F) -> B < 2 ^ 1024 ->
  is_finite (pack sx m F) = true.
Proof.
  intros Hm HF Hle HB. unfold pack.
  destruct (Z.eqb_spec m 0); [reflexivity | ].
  assert (Hbig : forall k, k <= F -> 971 <= k -> 2 ^ 52 * 2 ^ k <= B).
  { intros k Hk1 Hk2. destruct HF as [ | HF]; [lia | ].
    rewrite (pow2p_nonneg F), (pow2p_nonpos (- F)) in Hle by lia.
    pose proof (Z.pow_le_mono_r 2 k F ltac:(lia) Hk1).
    assert (0 < 2 ^ k) by (apply Z.pow_pos_nonneg; lia). nia. }
  destruct (Z.ltb_spec m (2 ^ 53)).
  - destruct (Z.leb_spec F 971); [reflexivity | ].
    exfalso. pose proof (Hbig 972 ltac:(lia) ltac:(lia)).
    change (2 ^ 52 * 2 ^ 972) with (2 ^ 1024) in *. lia.
  - destruct (Z.leb_spec (F + 1) 971); [reflexivity | ].
    exfalso. assert (m = 2 ^ 53) by lia. subst m.
    destruct HF as [ | HF]; [lia | ].
    rewrite (pow2p_nonneg F), (pow2p_nonpos (- F)) in Hle by lia.
    pose proof (Z.pow_le_mono_r 2 971 F ltac:(lia) ltac:(lia)).
    change (2 ^ 1024) with (2 ^ 53 * 2 ^ 971) in HB. nia.
Qed.

Lemma shiftl_carry F : Z.shiftl (2 ^ 53 / 2) (F + 1) = Z.shiftl (2 ^ 53) F.
Proof.
  change (2 ^ 53 / 2) with (2 ^ 52).
  destruct (Z_lt_le_dec F 0) as [Hneg | Hpos].
  - rewrite !Z.shiftl_div_pow2 by lia.
    change (2 ^ 53) with (2 * 2 ^ 52).
    replace (- F) with (Z.succ (- (F + 1))) by lia.
    rewrite Z.pow_succ_r by lia.
    rewrite Z.div_mul_cancel_l; [reflexivity | | lia].
    apply Z.pow_nonzero; lia.
  - rewrite !Z.shiftl_mul_pow2 by lia.
    rewrite Z.pow_add_r by lia. change (2 ^ 53) with (2 ^ 52 * 2 ^ 1). lia.
Qed.

Lemma int_of_float_pack sx m F :
  0 <= m <= 2 ^ 53 -> is_finite (pack sx m F) = true ->
  int_of_float (pack sx m F) = Ok (cond_Zopp sx (Z.shiftl m F)).
Proof.
  intros Hm. unfold pack.
  destruct (Z.eqb_spec m 0) as [-> | Hne].
  - intros _. cbn [int_of_float]. rewrite Z.shiftl_0_l. now destruct sx.
  - destruct (Z.ltb_spec m (2 ^ 53)).
    + destruct (F <=? 971); [ | discriminate]. intros _.
      cbn [int_of_float]. rewrite Z2Pos.id by lia. reflexivity.
    + destruct (F + 1 <=? 971); [ | discriminate]. intros _.
      assert (m = 2 ^ 53) by lia. subst m.
      cbn [int_of_float]. rewrite Z2Pos.id by reflexivity.
      now rewrite shiftl_carry.
Qed.

Lemma shiftl_bounds m F B :
  0 <= m -> m * pow2p F <= B * pow2p (- F) ->
  0 <= Z.shiftl m F <= B.
Proof.
  intros Hm Hle. destruct (Z_lt_le_dec F 0) as [Hneg | Hpos].
  - rewrite (pow2p_nonpos F), (pow2p_nonneg (- F)) in Hle by lia.
    rewrite Z.shiftl_div_pow2 by lia.
    assert (0 < 2 ^ (- F)) by (apply Z.pow_pos_nonneg; lia).
    split; [apply Z.div_pos; lia | ].
    apply Z.div_le_upper_bound; lia.
  - rewrite (pow2p_nonneg F), (pow2p_nonpos (- F)) in Hle by lia.
    rewrite Z.shiftl_mul_pow2 by lia.
    assert (0 < 2 ^ F) by (apply Z.pow_pos_nonneg; lia). nia.
Qed.

(** ** Doubles of bounded magnitude *)

Lemma pack_mag_le sx m F B :
  0 <= m <= 2 ^ 53 -> (F = -1074 \/ 2 ^ 52 <= m) ->
  m * pow2p F <= B * pow2p (- F) -> B < 2 ^ 1024 ->
  is_finite (pack sx m F) = true /\
  mag_le (pack sx m F) B /\
  sign_of (pack sx m F) = sx.
Proof.
  intros Hm HF Hle HB.
  pose proof (pack_finite sx m F B Hm HF Hle HB) as Hfin.
  split; [assumption | ].
  revert Hfin. unfold pack.
  destruct (Z.eqb_spec m 0) as [-> | Hne]; [cbn; tauto | ].
  destruct (Z.ltb_spec m (2 ^ 53)).
  - destruct (F <=? 971); [ | discriminate]. intros _.
    cbn [mag_le sign_of]. rewrite Z2Pos.id by lia. tauto.
  - destruct (F + 1 <=? 971); [ | discriminate]. intros _.
    assert (m = 2 ^ 53) by lia. subst m.
    cbn [mag_le sign_of]. rewrite Z2Pos.id by reflexivity.
    change (2 ^ 53 / 2) with (2 ^ 52).
    split; [split; [reflexivity | ] | reflexivity].
    destruct (Z_lt_le_dec F (-1)) as [Hneg | Hpos].
    + rewrite (pow2p_nonpos F), (pow2p_nonneg (- F)) in Hle by lia.
      rewrite (pow2p_nonpos (F + 1)), (pow2p_nonneg (- (F + 1))) by lia.
      replace (- F) with (Z.succ (- (F + 1))) in Hle by lia.
      rewrite Z.pow_succ_r in Hle by lia.
      change (2 ^ 53) with (2 * 2 ^ 52) in Hle. lia.
    + destruct (Z.eq_dec F (-1)) as [-> | Hne1].
      * cbn in *. lia.
      * rewrite (pow2p_nonneg F), (pow2p_nonpos (- F)) in Hle by lia.
        rewrite (pow2p_nonneg (F + 1)), (pow2p_nonpos (- (F + 1))) by lia.
        rewrite Z.pow_add_r by lia.
        change (2 ^ 53) with (2 ^ 52 * 2 ^ 1) in Hle. lia.
Qed.

Lemma mag_le_mono x B B' : B <= B' -> mag_le x B -> mag_le x B'.
Proof.
  intro HB. destruct x as [ | | | s m e]; cbn; try tauto.
  intros [H1 H2]. split; [assumption | ].
  pose proof (pow2p_pos (- e)). nia.
Qed.

Lemma mag_le_int x B :
  0 <= B -> mag_le x B ->
  exists t, int_of_float x = Ok t /\ Z.abs t <= B /\
            (sign_of x = false -> 0 <= t) /\ (sign_of x = true -> t <= 0).
Proof.
  intro HB. destruct x as [s | | | s m e]; cbn [mag_le]; try tauto.
  - intros _. exists 0. cbn. repeat split; lia.
  - intros [_ Hle]. exists (cond_Zopp s (Z.shiftl (Zpos m) e)).
    pose proof (shiftl_bounds (Zpos m) e B ltac:(lia) Hle).
    split; [reflexivity | ].
    destruct s; cbn [cond_Zopp sign_of]; repeat split; try lia; discriminate.
Qed.

Lemma int_truediv_mag_le a b mB eB :
  b <> 0 -> Z.abs a <= mB * 2 ^ eB * Z.abs b ->
  0 <= mB < 2 ^ 53 -> 0 <= eB -> mB * 2 ^ eB < 2 ^ 1024 ->
  exists x, int_truediv a b = Ok x /\ mag_le x (mB * 2 ^ eB) /\
            sign_of x = xorb (a <? 0) (b <? 0).
Proof.
  intros Hb Hab HmB HeB HB. unfold int_truediv.
  destruct (Z.eqb_spec b 0) as [ | _]; [contradiction | ].
  assert (Hfin : forall sa pa sb pb,
             Zpos pa <= mB * 2 ^ eB * Zpos pb ->
             let x := SFdiv prec emax (S754_finite sa pa 0) (S754_finite sb pb 0) in
             is_finite x = true /\ mag_le x (mB * 2 ^ eB) /\ sign_of x = xorb sa sb).
  { intros sa pa sb pb Hle x. subst x.
    destruct (SFdiv_spec sa pa sb pb) as (m2 & F & -> & Hm2 & HF & Hcan & Hnear & Hcf).
    apply pack_mag_le; try assumption.
    apply near_upper with (N := Zpos pa) (D := Zpos pb); try assumption; lia. }
  destruct a as [ | pa | pa], b as [ | pb | pb]; try contradiction;
    cbn [raw_of_int];
    try (eexists; split; [reflexivity | split; [exact I | reflexivity]]).
  all: match goal with
       | |- context [SFdiv prec emax (S754_finite ?sa ?pa 0) (S754_finite ?sb ?pb 0)] =>
           destruct (Hfin sa pa sb pb ltac:(cbn in Hab; lia)) as (H1 & H2 & H3);
           rewrite H1; eexists; split; [reflexivity | split; [exact H2 | exact H3]]
       end.
Qed.

(** Truncating the quotient of two integers loses nothing to rounding while
    the dividend is small. *)
Lemma near_floor N D F m :
  0 < N <= 2 ^ 52 -> 0 < D -> 0 <= m <= 2 ^ 53 ->
  near N D F m -> canonical_for N D F ->
  Z.shiftl m F = N / D.
Proof.
  intros HN HD Hm [HL HU] HC. unfold canonical_for in HC.
  assert (HF : F <= 0).
  { destruct (Z_le_gt_dec F 0) as [ | Hgt]; [assumption | exfalso].
    destruct HC as [ | HC]; [lia | ].
    rewrite (pow2p_nonneg F), (pow2p_nonpos (- F)) in HC by lia.
    pose proof (Z.pow_le_mono_r 2 1 F ltac:(lia) ltac:(lia)) as Hp.
    change (2 ^ 1) with 2 in Hp.
    assert (1 * 2 <= D * 2 ^ F) by (apply Z.mul_le_mono_nonneg; lia).
    change (2 ^ 52) with 4503599627370496 in *. lia. }
  rewrite (pow2p_nonpos F) in * by lia. rewrite (pow2p_nonneg (- F)) in * by lia.
  assert (Esh : Z.shiftl m F = m / 2 ^ (- F)).
  { apply Z.shiftl_div_pow2. lia. }
  rewrite Esh. clear Esh.
  assert (HG : 0 < 2 ^ (- F)) by (apply Z.pow_pos_nonneg; lia).
  pose proof (Z.div_mod N D ltac:(lia)) as Hk.
  pose proof (Z.mod_pos_bound N D HD) as Hr.
  assert (Hk0 : 0 <= N / D) by (apply Z.div_pos; lia).
  set (k := N / D) in *. set (G := 2 ^ (- F)) in *.
  assert (HG54 : F = -1074 -> 2 ^ 54 <= G).
  { intros ->. subst G. apply Z.pow_le_mono_r; lia. }
  clearbody k G.
  assert (Hlow : k * G <= m).
  { assert (k * G * D < (m + 1) * D) by nia.
    assert (k * G < m + 1) by (apply Z.mul_lt_mono_pos_r with (p := D); assumption).
    lia. }
  assert (Hup : m < (k + 1) * G).
  { destruct (Z_lt_le_dec m ((k + 1) * G)) as [ | Hge]; [assumption | exfalso].
    assert (HDG : G < D) by nia.
    destruct HC as [HFmin | HC].
    - specialize (HG54 HFmin).
      change (2 ^ 54) with 18014398509481984 in *.
      change (2 ^ 53) with 9007199254740992 in *. nia.
    - change (2 ^ 52) with 4503599627370496 in *. nia. }
  symmetry. apply Z.div_unique with (r := m - k * G); lia.
Qed.

Theorem int_truediv_trunc a b :
  Z.abs a <= 2 ^ 52 -> b <> 0 ->
  exists x, int_truediv a b = Ok x /\ int_of_float x = Ok (Z.quot a b).
Proof.
  intros Ha Hb. unfold int_truediv.
  destruct (Z.eqb_spec b 0) as [ | _]; [contradiction | ].
  assert (Hcore : forall sa pa sb pb,
             Zpos pa <= 2 ^ 52 ->
             let x := SFdiv prec emax (S754_finite sa pa 0) (S754_finite sb pb 0) in
             is_finite x = true /\
             int_of_float x = Ok (cond_Zopp (xorb sa sb) (Zpos pa / Zpos pb))).
  { intros sa pa sb pb Hle x. subst x.
    destruct (SFdiv_spec sa pa sb pb) as (m2 & F & -> & Hm2 & HF & Hcan & Hnear & Hcf).
    assert (Hfin : is_finite (pack (xorb sa sb) m2 F) = true).
    { apply pack_finite with (B := Zpos pa * 2 ^ 0); try assumption.
      - apply near_upper with (N := Zpos pa) (D := Zpos pb); try assumption; try lia.
        rewrite Z.pow_0_r. nia.
      - rewrite Z.pow_0_r. change (2 ^ 52) with 4503599627370496 in Hle.
        assert (4503599627370496 < 2 ^ 1024) by reflexivity. lia. }
    split; [assumption | ].
    rewrite int_of_float_pack by assumption.
    rewrite (near_floor (Zpos pa) (Zpos pb) F m2); try assumption; try lia.
    reflexivity. }
  destruct a as [ | pa | pa], b as [ | pb | pb]; try contradiction;
    cbn [raw_of_int];
    try (eexists; split; reflexivity).
  all: match goal with
       | |- context [SFdiv prec emax (S754_finite ?sa ?pa 0) (S754_finite ?sb ?pb 0)] =>
           destruct (Hcore sa pa sb pb ltac:(cbn in Ha; lia)) as (H1 & H2);
           rewrite H1; eexists; split; [reflexivity | rewrite H2; f_equal]
       end.
  all: cbn [xorb cond_Zopp].
  - now rewrite Z.quot_div_nonneg by lia.
  - change (Z.neg pb) with (- Z.pos pb).
    rewrite Z.quot_opp_r by lia. now rewrite Z.quot_div_nonneg by lia.
  - change (Z.neg pa) with (- Z.pos pa).
    rewrite Z.quot_opp_l by lia. now rewrite Z.quot_div_nonneg by lia.
  - change (Z.neg pa) with (- Z.pos pa). change (Z.neg pb) with (- Z.pos pb).
    rewrite Z.quot_opp_opp by lia. now rewrite Z.quot_div_nonneg by lia.
Qed.

(** A quotient that is an integer of at most 53 bits comes out exact. *)
Lemma near_exact k D F m :
  0 < k < 2 ^ 53 -> 0 < D ->
  near (k * D) D F m -> canonical_for (k * D) D F ->
  Z.shiftl m F = k.
Proof.
  intros Hk HD [HL HU] HC. unfold canonical_for in HC.
  assert (HF : F <= 0).
  { destruct (Z_le_gt_dec F 0) as [ | Hgt]; [assumption | exfalso].
    destruct HC as [ | HC]; [lia | ].
    rewrite (pow2p_nonneg F), (pow2p_nonpos (- F)) in HC by lia.
    pose proof (Z.pow_le_mono_r 2 1 F ltac:(lia) ltac:(lia)) as Hp.
    change (2 ^ 1) with 2 in Hp.
    assert (H1 : 2 ^ 52 * 2 ^ F * D <= k * D) by lia.
    apply Z.mul_le_mono_pos_r in H1; [ | assumption].
    change (2 ^ 52) with 4503599627370496 in *.
    change (2 ^ 53) with 9007199254740992 in *. lia. }
  rewrite (pow2p_nonpos F) in * by lia. rewrite (pow2p_nonneg (- F)) in * by lia.
  rewrite Z.shiftl_div_pow2 by lia.
  assert (HG : 0 < 2 ^ (- F)) by (apply Z.pow_pos_nonneg; lia).
  set (G := 2 ^ (- F)) in *. clearbody G.
  assert (H1 : (m - 1) * D < k * G * D) by lia.
  assert (H2 : k * G * D < (m + 1) * D) by lia.
  apply Z.mul_lt_mono_pos_r in H1; [ | assumption].
  apply Z.mul_lt_mono_pos_r in H2; [ | assumption].
  replace m with (k * G) by lia. apply Z.div_mul. lia.
Qed.

Theorem int_truediv_exact k b :
  0 <= k < 2 ^ 53 -> 0 < b ->
  exists x, int_truediv (k * b) b = Ok x /\ int_of_float x = Ok k.
Proof.
  intros Hk Hb. unfold int_truediv.
  destruct (Z.eqb_spec b 0) as [ | _]; [lia | ].
  destruct (Z.eq_dec k 0) as [-> | Hk0].
  { destruct b; try lia. cbn. eexists; split; reflexivity. }
  destruct (k * b) as [ | pa | pa] eqn:Ea; try nia.
  destruct b as [ | pb | pb]; try lia.
  cbn [raw_of_int].
  destruct (SFdiv_spec false pa false pb) as (m2 & F & -> & Hm2 & HF & Hcan & Hnear & Hcf).
  rewrite <- Ea in Hnear, Hcf.
  assert (Hfin : is_finite (pack (xorb false false) m2 F) = true).
  { apply pack_finite with (B := k * 2 ^ 0); try assumption.
    - apply near_upper with (N := k * Zpos pb) (D := Zpos pb); try assumption; try lia.
    - rewrite Z.pow_0_r. assert (2 ^ 53 < 2 ^ 1024) by reflexivity. lia. }
  rewrite Hfin. eexists; split; [reflexivity | ].
  rewrite int_of_float_pack by assumption.
  rewrite (near_exact k (Zpos pb) F m2); try assumption; try lia.
  reflexivity.
Qed.

(** ** [float(w)] for [w] below [2 ^ 53] *)

Lemma iter_xO p d : Zpos (Pos.iter xO p d) = Zpos p * 2 ^ Zpos d.
Proof.
  induction d as [ | d IH] using Pos.peano_ind.
  - cbn. lia.
  - rewrite Pos.iter_succ, Pos2Z.inj_succ, Z.pow_succ_r by lia.
    rewrite Pos2Z.inj_xO, IH. lia.
Qed.

Lemma float_of_int_exact w :
  0 < w < 2 ^ 53 ->
  exists pm e,
    float_of_int w = Ok (S754_finite false pm e) /\
    e <= 0 /\ Zpos pm = w * 2 ^ (- e) /\ 2 ^ 52 <= Zpos pm < 2 ^ 53.
Proof.
  intros Hw. destruct w as [ | p | p]; try lia.
  unfold float_of_int. cbn [binary_normalize]. unfold binary_round.
  rewrite fexp_eq.
  pose proof (digits2_pos_bounds p) as [Hdl Hdu].
  set (d := Zpos (digits2_pos p)) in *.
  assert (Hd : 0 < d <= 53).
  { split; [subst d; lia | ].
    apply (Zdigits2_le (Zpos p) 53); lia. }
  assert (Hfe : fexp64 (d + 0) = d - 53) by (unfold fexp64; lia).
  rewrite Hfe. unfold shl_align.
  assert (Hres : forall mz, 2 ^ 52 <= Zpos mz < 2 ^ 53 -> forall ez, -52 <= ez <= 0 ->
             binary_round_aux prec emax false (Zpos mz) ez loc_Exact
             = S754_finite false mz ez).
  { intros mz Hmz ez Hez.
    assert (Hdz : Zdigits2 (Zpos mz) = 53).
    { pose proof (Zdigits2_ge (Zpos mz) 52 ltac:(lia) ltac:(lia)).
      pose proof (Zdigits2_le (Zpos mz) 53 ltac:(lia) ltac:(lia)). lia. }
    assert (HFz : fexp64 (Zdigits2 (Zpos mz) + ez) = ez)
      by (rewrite Hdz; unfold fexp64; lia).
    destruct (binary_round_aux_spec false (Zpos mz) ez loc_Exact ltac:(lia) ltac:(lia))
      as (m2 & -> & _ & Hex & _).
    cbv zeta in Hex. rewrite HFz in *. rewrite Z.sub_diag, Z.pow_0_r in Hex.
    rewrite Hex; [ | reflexivity | apply Z.mod_1_r].
    rewrite Z.div_1_r. unfold pack.
    replace (Z.pos mz =? 0) with false by reflexivity.
    replace (Z.pos mz <? 2 ^ 53) with true by (symmetry; apply Z.ltb_lt; lia).
    replace (ez <=? 971) with true by (symmetry; apply Z.leb_le; lia).
    reflexivity. }
  destruct (d - 53 - 0) as [ | q | q] eqn:Eq; try lia.
  - assert (E53 : d = 53) by lia. rewrite E53 in *.
    change (2 ^ (53 - 1)) with (2 ^ 52) in Hdl.
    rewrite Hres by lia.
    exists p, 0. cbn [is_finite]. repeat split; try lia.
  - assert (Hq : Zpos q = 53 - d) by lia.
    assert (Hmz : 2 ^ 52 <= Zpos (Pos.iter xO p q) < 2 ^ 53).
    { rewrite iter_xO, Hq.
      assert (E1 : 2 ^ 52 = 2 ^ (d - 1) * 2 ^ (53 - d))
        by (rewrite <- Z.pow_add_r by lia; f_equal; lia).
      assert (E2 : 2 ^ 53 = 2 ^ d * 2 ^ (53 - d))
        by (rewrite <- Z.pow_add_r by lia; f_equal; lia).
      rewrite E1, E2.
      assert (0 < 2 ^ (53 - d)) by (apply Z.pow_pos_nonneg; lia).
      split; [apply Z.mul_le_mono_nonneg_r | apply Z.mul_lt_mono_pos_r]; lia. }
    rewrite Hres by (try split; lia).
    exists (Pos.iter xO p q), (d - 53). cbn [is_finite].
    split; [reflexivity | ]. split; [lia | ].
    split; [ | assumption].
    rewrite iter_xO, Hq. do 2 f_equal. lia.
Qed.

Lemma pow2p_split e F :
  e <= F ->
  pow2p (- e) * pow2p F = 2 ^ (F - e) * (pow2p e * pow2p (- F)).
Proof.
  intro H. unfold pow2p.
  rewrite <- !Z.pow_add_r by lia. f_equal. lia.
Qed.

Lemma SFmul_spec sw pw ew ss ps es :
  2 ^ 52 <= Zpos pw ->
  let m := Zpos pw * Zpos ps in
  let e := ew + es in
  exists m2 F,
    SFmul prec emax (S754_finite sw pw ew) (S754_finite ss ps es)
      = pack (xorb sw ss) m2 F /\
    0 <= m2 <= 2 ^ 53 /\ (F = -1074 \/ 2 ^ 52 <= m2) /\
    near (m * pow2p e) (pow2p (- e)) F m2 /\
    canonical_for (m * pow2p e) (pow2p (- e)) F.
Proof.
  intros Hpw m e.
  assert (Hm : 2 ^ 52 <= m) by (subst m; nia).
  assert (Hprec : e <= fexp64 (Zdigits2 m + e)).
  { pose proof (Zdigits2_ge m 52 ltac:(lia) Hm). unfold fexp64. lia. }
  destruct (binary_round_aux_spec (xorb sw ss) m e loc_Exact ltac:(lia) Hprec)
    as (m2 & Hres & Hb & Hex & Hm1 & Hcan).
  cbv zeta in *.
  set (F := fexp64 (Zdigits2 m + e)) in *.
  set (P := 2 ^ (F - e)) in *.
  assert (HP : 0 < P) by (apply Z.pow_pos_nonneg; lia).
  pose proof (Z.div_mod m P ltac:(lia)) as Hqm.
  pose proof (Z.mod_pos_bound m P HP) as Hqr.
  set (m1 := m / P) in *.
  assert (HL : (m2 - 1) * P < m).
  { destruct (Z.eq_dec m2 m1) as [-> | Hne]; [nia | ].
    destruct (Z.eq_dec (m mod P) 0) as [H0 | H0].
    - exfalso. apply Hne. now apply Hex.
    - nia. }
  assert (HU : m < (m2 + 1) * P) by nia.
  assert (HC : F = -1074 \/ 2 ^ 52 * P <= m).
  { destruct Hcan as [ | Hc]; [now left | right]. nia. }
  exists m2, F.
  split; [exact Hres | ]. split; [lia | ].
  split; [destruct Hcan; [now left | right; lia] | ].
  pose proof (pow2p_split e F Hprec) as Esp. fold P in Esp.
  pose proof (pow2p_pos e). pose proof (pow2p_pos (- F)).
  assert (Hc : 0 < pow2p e * pow2p (- F)) by (apply Z.mul_pos_pos; assumption).
  set (c := pow2p e * pow2p (- F)) in *.
  split.
  - unfold near. rewrite Esp.
    replace (m * pow2p e * pow2p (- F)) with (m * c) by (subst c; ring).
    clearbody c P. split; nia.
  - destruct HC as [ | HC]; [now left | right]. rewrite Esp.
    replace (m * pow2p e * pow2p (- F)) with (m * c) by (subst c; ring).
    clearbody c P. nia.
Qed.

(** [w * x] does not leave the magnitude [w * S] when [x] is within [S]. *)
Lemma int_mul_float_mag_le w x S mB eB :
  0 < w < 2 ^ 53 -> mag_le x S ->
  w * S = mB * 2 ^ eB -> 0 <= mB < 2 ^ 53 -> 0 <= eB ->
  w * S < 2 ^ 1024 ->
  exists y, int_mul_float w x = Ok y /\ mag_le y (w * S) /\
            sign_of y = sign_of x.
Proof.
  intros Hw Hx HB HmB HeB Hlim. unfold int_mul_float.
  destruct (float_of_int_exact w Hw) as (pm & ew & -> & Hew & Hpm & Hpmb).
  cbn [bind].
  destruct x as [s | | | ss ps es]; cbn [mag_le] in Hx; try tauto.
  { eexists; split; [reflexivity | ]. cbn. tauto. }
  destruct Hx as [Hps Hle].
  destruct (SFmul_spec false pm ew ss ps es ltac:(lia))
    as (m2 & F & -> & Hm2 & Hcan & Hnear & Hcf).
  cbn [xorb] in *.
  eexists; split; [reflexivity | ].
  cbn [sign_of].
  assert (Hval : Zpos pm * Zpos ps * pow2p (ew + es)
                 <= w * S * pow2p (- (ew + es))).
  { rewrite Hpm.
    assert (HA : 0 < 2 ^ (- ew)) by (apply Z.pow_pos_nonneg; lia).
    destruct (Z_lt_le_dec es 0) as [Hes | Hes].
    - rewrite (pow2p_nonpos es), (pow2p_nonneg (- es)) in Hle by lia.
      rewrite (pow2p_nonpos (ew + es)), (pow2p_nonneg (- (ew + es))) by lia.
      replace (- (ew + es)) with (- ew + - es) by lia.
      rewrite Z.pow_add_r by lia. nia.
    - rewrite (pow2p_nonneg es), (pow2p_nonpos (- es)) in Hle by lia.
      destruct (Z_lt_le_dec (ew + es) 0) as [He | He].
      + rewrite (pow2p_nonpos (ew + es)), (pow2p_nonneg (- (ew + es))) by lia.
        replace (- ew) with (- (ew + es) + es) by lia.
        rewrite Z.pow_add_r by lia.
        assert (0 < 2 ^ (- (ew + es))) by (apply Z.pow_pos_nonneg; lia). nia.
      + rewrite (pow2p_nonneg (ew + es)), (pow2p_nonpos (- (ew + es))) by lia.
        assert (E : 2 ^ es = 2 ^ (- ew) * 2 ^ (ew + es))
          by (rewrite <- Z.pow_add_r by lia; f_equal; lia).
        rewrite E in Hle. nia. }
  assert (Hup : m2 * pow2p F <= w * S * pow2p (- F)).
  { rewrite HB.
    apply near_upper with (N := Zpos pm * Zpos ps * pow2p (ew + es))
                          (D := pow2p (- (ew + es))); try assumption.
    - apply pow2p_pos.
    - rewrite <- HB. exact Hval. }
  destruct (pack_mag_le ss m2 F (w * S) Hm2 Hcan Hup Hlim) as (_ & H2 & H3).
  split; assumption.
Qed.

Lemma mag_le_one : mag_le one 1.
Proof.
  unfold mag_le, one. split; [reflexivity | ].
  vm_compute. discriminate.
Qed.

(** What [SFltb one x = false] says of a non-negative double. *)
Lemma not_above_one x B :
  mag_le x B -> sign_of x = false -> SFltb one x = false -> mag_le x 1.
Proof.
  destruct x as [s | | | s m e]; cbn [mag_le sign_of]; try tauto.
  intros [Hm _] -> Hlt. split; [assumption | ].
  unfold SFltb, SFcompare, one in Hlt.
  destruct (Z.compare_spec (-52) e) as [He | He | He].
  - subst e.
    rewrite (pow2p_nonpos (-52)), (pow2p_nonneg (- -52)) by lia.
    change (2 ^ (- -52)) with 4503599627370496.
    rewrite Pos.compare_cont_spec in Hlt.
    destruct (Pos.compare_spec 4503599627370496 m) as [Hc | Hc | Hc].
    + subst m. lia.
    + exfalso. clear - Hlt. cbn [Pos.switch_Eq] in Hlt. congruence.
    + clear Hlt. apply Pos2Z.pos_lt_pos in Hc. lia.
  - exfalso. clear - Hlt. congruence.
  - rewrite (pow2p_nonpos e), (pow2p_nonneg (- e)) by lia.
    pose proof (Z.pow_le_mono_r 2 53 (- e) ltac:(lia) ltac:(lia)). lia.
Qed.

Lemma min3_one_cases a b :
  min3 a b one = a \/ min3 a b one = b \/ min3 a b one = one.
Proof.
  unfold min3. destruct (SFltb b a); destruct (SFltb one _); tauto.
Qed.

Lemma min3_one_le a b Ba Bb :
  mag_le a Ba -> sign_of a = false ->
  mag_le b Bb -> sign_of b = false ->
  mag_le (min3 a b one) 1 /\ sign_of (min3 a b one) = false.
Proof.
  intros Ha Sa Hb Sb. unfold min3.
  destruct (SFltb b a).
  - destruct (SFltb one b) eqn:E; [split; [apply mag_le_one | reflexivity] | ].
    split; [eapply not_above_one; eassumption | assumption].
  - destruct (SFltb one a) eqn:E; [split; [apply mag_le_one | reflexivity] | ].
    split; [eapply not_above_one; eassumption | assumption].
Qed.


(** * The output size (lines 27-29) *)

Lemma pow2_970_lt : 1 * 2 ^ 970 < 2 ^ 1024.
Proof. reflexivity. Qed.

Lemma pow2_1023_lt : 1 * 2 ^ 1023 < 2 ^ 1024.
Proof. reflexivity. Qed.

Lemma bind_ok {A B : Type} (c : result A) (k : A -> result B) (b : B) :
  Py.bind c k = Ok b -> exists a, c = Ok a /\ k a = Ok b.
Proof.
  destruct c as [a | e]; cbn; [ | discriminate].
  intro H. exists a. split; [reflexivity | assumption].
Qed.

(** Whatever the bounds, a size that is computed is at least 1 by 1. *)
Lemma plan_size_at_least_1 w h max_width max_height nw nh :
  plan_size w h max_width max_height = Ok (nw, nh) -> 1 <= nw /\ 1 <= nh.
Proof.
  unfold plan_size. intro H.
  repeat (apply bind_ok in H; destruct H as (? & _ & H)).
  injection H as <- <-. lia.
Qed.

(** One axis: [max(1, int(w * scale))] for a scale of magnitude at most
    [S]. *)
Lemma scaled_axis w scale S mB eB :
  0 < w < 2 ^ 53 -> mag_le scale S -> 0 <= S ->
  w * S = mB * 2 ^ eB -> 0 <= mB < 2 ^ 53 -> 0 <= eB -> w * S < 2 ^ 1024 ->
  exists fw n,
    int_mul_float w scale = Ok fw /\ int_of_float fw = Ok n /\
    Z.abs n <= w * S /\ (sign_of scale = false -> 0 <= n).
Proof.
  intros Hw Hs HS HB HmB HeB Hlim.
  destruct (int_mul_float_mag_le w scale S mB eB Hw Hs HB HmB HeB Hlim)
    as (fw & Hfw & Hmag & Hsign).
  destruct (mag_le_int fw (w * S) ltac:(nia) Hmag) as (n & Hn & Habs & Hpos & _).
  exists fw, n. rewrite Hsign in Hpos. auto.
Qed.

Lemma plan_size_returns w h max_width max_height :
  1 <= w < 2 ^ 53 -> 1 <= h < 2 ^ 53 ->
  Z.abs max_width <= 2 ^ 970 -> Z.abs max_height <= 2 ^ 970 ->
  exists nw nh, plan_size w h max_width max_height = Ok (nw, nh).
Proof.
  intros Hw Hh Hmw Hmh.
  assert (Hp : 0 < 2 ^ 970) by reflexivity.
  assert (H53 : 0 <= 1 < 2 ^ 53) by (split; [lia | reflexivity]).
  destruct (int_truediv_mag_le max_width w 1 970 ltac:(lia) ltac:(nia) H53
              ltac:(lia) pow2_970_lt) as (sw & Hsw & Hmsw & _).
  destruct (int_truediv_mag_le max_height h 1 970 ltac:(lia) ltac:(nia) H53
              ltac:(lia) pow2_970_lt) as (sh & Hsh & Hmsh & _).
  rewrite Z.mul_1_l in Hmsw, Hmsh.
  assert (Hscale : mag_le (min3 sw sh one) (2 ^ 970)).
  { destruct (min3_one_cases sw sh) as [-> | [-> | ->]]; try assumption.
    apply mag_le_mono with (B := 1); [lia | apply mag_le_one]. }
  assert (Hlim : forall x, 0 < x < 2 ^ 53 -> x * 2 ^ 970 < 2 ^ 1024).
  { intros x Hx. change (2 ^ 1024) with (2 ^ 54 * 2 ^ 970).
    change (2 ^ 53) with 9007199254740992 in Hx.
    change (2 ^ 54) with 18014398509481984. nia. }
  destruct (scaled_axis w (min3 sw sh one) (2 ^ 970) w 970 ltac:(lia) Hscale
              ltac:(lia) eq_refl ltac:(lia) ltac:(lia) (Hlim w ltac:(lia)))
    as (fw & nw & Hfw & Hnw & _).
  destruct (scaled_axis h (min3 sw sh one) (2 ^ 970) h 970 ltac:(lia) Hscale
              ltac:(lia) eq_refl ltac:(lia) ltac:(lia) (Hlim h ltac:(lia)))
    as (fh & nh & Hfh & Hnh & _).
  exists (Z.max 1 nw), (Z.max 1 nh).
  unfold plan_size. rewrite Hsw, Hsh. cbn [Py.bind].
  rewrite Hfw. cbn [Py.bind]. rewrite Hnw. cbn [Py.bind].
  rewrite Hfh. cbn [Py.bind]. rewrite Hnh. reflexivity.
Qed.

Lemma plan_size_positive w h max_width max_height :
  1 <= w < 2 ^ 53 -> 1 <= h < 2 ^ 53 ->
  0 < max_width <= 2 ^ 1023 -> 0 < max_height <= 2 ^ 1023 ->
  exists nw nh,
    plan_size w h max_width max_height = Ok (nw, nh) /\
    1 <= nw <= w /\ 1 <= nh <= h.
Proof.
  intros Hw Hh Hmw Hmh.
  assert (Hp : 0 < 2 ^ 1023) by reflexivity.
  assert (H53 : 0 <= 1 < 2 ^ 53) by (split; [lia | reflexivity]).
  destruct (int_truediv_mag_le max_width w 1 1023 ltac:(lia) ltac:(nia) H53
              ltac:(lia) pow2_1023_lt) as (sw & Hsw & Hmsw & Hssw).
  destruct (int_truediv_mag_le max_height h 1 1023 ltac:(lia) ltac:(nia) H53
              ltac:(lia) pow2_1023_lt) as (sh & Hsh & Hmsh & Hssh).
  replace (max_width <? 0) with false in Hssw by (symmetry; apply Z.ltb_ge; lia).
  replace (w <? 0) with false in Hssw by (symmetry; apply Z.ltb_ge; lia).
  replace (max_height <? 0) with false in Hssh by (symmetry; apply Z.ltb_ge; lia).
  replace (h <? 0) with false in Hssh by (symmetry; apply Z.ltb_ge; lia).
  cbn [xorb] in Hssw, Hssh.
  destruct (min3_one_le sw sh _ _ Hmsw Hssw Hmsh Hssh) as [Hscale Hsign].
  assert (Hlim : forall x, 0 < x < 2 ^ 53 -> x * 1 < 2 ^ 1024).
  { intros x Hx. assert (2 ^ 53 < 2 ^ 1024) by reflexivity. lia. }
  destruct (scaled_axis w (min3 sw sh one) 1 w 0 ltac:(lia) Hscale
              ltac:(lia) ltac:(lia) ltac:(lia) ltac:(lia) (Hlim w ltac:(lia)))
    as (fw & nw & Hfw & Hnw & Haw & Hpw).
  destruct (scaled_axis h (min3 sw sh one) 1 h 0 ltac:(lia) Hscale
              ltac:(lia) ltac:(lia) ltac:(lia) ltac:(lia) (Hlim h ltac:(lia)))
    as (fh & nh & Hfh & Hnh & Hah & Hph).
  specialize (Hpw Hsign). specialize (Hph Hsign).
  exists (Z.max 1 nw), (Z.max 1 nh).
  split; [ | lia].
  unfold plan_size. rewrite Hsw, Hsh. cbn [Py.bind].
  rewrite Hfw. cbn [Py.bind]. rewrite Hnw. cbn [Py.bind].
  rewrite Hfh. cbn [Py.bind]. rewrite Hnh. reflexivity.
Qed.

(** * The target duration (line 36) *)

Lemma target_frame_duration_quot fps :
  fps <> 0 -> target_frame_duration fps = Ok (Z.max 10 (Z.quot 1000 fps)).
Proof.
  intro Hfps. unfold target_frame_duration.
  assert (H52 : Z.abs 1000 <= 2 ^ 52) by (change (2 ^ 52) with 4503599627370496; lia).
  destruct (int_truediv_trunc 1000 fps H52 Hfps) as (x & Hx & Ht).
  rewrite Hx. cbn [Py.bind]. rewrite Ht. reflexivity.
Qed.

Lemma target_frame_duration_zero :
  target_frame_duration 0 = Raise ZeroDivisionError.
Proof. reflexivity. Qed.

(** * Durations (lines 33-35 and 48) *)

Lemma fold_left_add_acc l a : fold_left Z.add l a = a + fold_left Z.add l 0.
Proof.
  revert a. induction l as [ | x l IH]; intro a; cbn [fold_left]; [lia | ].
  rewrite (IH (a + x)), (IH (0 + x)). lia.
Qed.

Lemma sum_cons x l : sum (x :: l) = x + sum l.
Proof. unfold sum. cbn [fold_left]. rewrite fold_left_add_acc. lia. Qed.

Lemma sum_abs_bound D l :
  Forall (fun d => Z.abs d <= D) l ->
  Z.abs (sum l) <= D * Z.of_nat (List.length l).
Proof.
  induction 1 as [ | x l Hx _ IH].
  - cbn. lia.
  - rewrite sum_cons. cbn [List.length]. rewrite Nat2Z.inj_succ. lia.
Qed.

Lemma int_truediv_finite a b x :
  int_truediv a b = Ok x -> is_finite x = true.
Proof.
  unfold int_truediv. destruct (b =? 0); [discriminate | ].
  destruct (is_finite _) eqn:E; [ | discriminate].
  intro H. injection H as <-. exact E.
Qed.

Lemma int_of_finite x :
  is_finite x = true -> exists t, int_of_float x = Ok t.
Proof.
  destruct x; cbn; try discriminate; intros _; eexists; reflexivity.
Qed.

(** [int(avg_duration)] never raises once line 35 has passed. *)
Lemma avg_duration_int ds n :
  avg_duration ds = Ok n -> exists d, int_of_number n = Ok d.
Proof.
  destruct ds as [ | x ds]; cbn [avg_duration].
  - intro H. injection H as <-. exists 100. reflexivity.
  - intro H. apply bind_ok in H. destruct H as (y & Hy & H).
    injection H as <-. cbn [int_of_number].
    apply int_of_finite. eapply int_truediv_finite. exact Hy.
Qed.

Lemma avg_duration_returns ds :
  Forall (fun d => Z.abs d <= 2 ^ 1023) ds ->
  exists n, avg_duration ds = Ok n.
Proof.
  intro Hds. destruct ds as [ | x ds]; [eexists; reflexivity | ].
  set (l := x :: ds) in *.
  assert (H53 : 0 <= 1 < 2 ^ 53) by (split; [lia | reflexivity]).
  pose proof (sum_abs_bound _ _ Hds) as Hsum.
  assert (Hlen : 0 < Z.of_nat (List.length l)) by (subst l; cbn [List.length]; lia).
  destruct (int_truediv_mag_le (sum l) (Z.of_nat (List.length l)) 1 1023
              ltac:(lia) ltac:(lia) H53 ltac:(lia) pow2_1023_lt)
    as (y & Hy & _).
  exists (PyFloat y). subst l. cbn [avg_duration].
  cbn [avg_duration] in Hy. rewrite Hy. reflexivity.
Qed.

Lemma avg_duration_quot ds :
  ds <> [] -> Z.abs (sum ds) <= 2 ^ 52 ->
  exists n, avg_duration ds = Ok n /\
            int_of_number n = Ok (Z.quot (sum ds) (Z.of_nat (List.length ds))).
Proof.
  intros Hne Hsum. destruct ds as [ | x ds]; [contradiction | ].
  set (l := x :: ds) in *.
  assert (Hlen : Z.of_nat (List.length l) <> 0) by (subst l; cbn [List.length]; lia).
  destruct (int_truediv_trunc (sum l) (Z.of_nat (List.length l)) Hsum Hlen)
    as (y & Hy & Ht).
  exists (PyFloat y). subst l. cbn [avg_duration].
  cbn [avg_duration] in Hy. rewrite Hy. split; [reflexivity | exact Ht].
Qed.

Lemma sum_all_100 fs :
  Forall (fun g => frame_duration g = None) fs ->
  sum (orig_durations fs) = 100 * Z.of_nat (List.length fs).
Proof.
  induction 1 as [ | g fs Hg _ IH].
  - reflexivity.
  - unfold orig_durations in *. cbn [map]. rewrite sum_cons, IH.
    unfold duration_or. rewrite Hg. cbn [List.length]. lia.
Qed.

Lemma avg_duration_all_missing fs :
  Forall (fun g => frame_duration g = None) fs ->
  exists n, avg_duration (orig_durations fs) = Ok n /\
            int_of_number n = Ok 100.
Proof.
  intro Hall. destruct fs as [ | g fs].
  - exists (PyInt 100). split; reflexivity.
  - pose proof (sum_all_100 _ Hall) as Hsum.
    set (l := g :: fs) in *.
    assert (Hlen : 0 < Z.of_nat (List.length l)) by (subst l; cbn [List.length]; lia).
    assert (H100 : 0 <= 100 < 2 ^ 53) by (split; [lia | reflexivity]).
    destruct (int_truediv_exact 100 (Z.of_nat (List.length l)) H100 Hlen)
      as (y & Hy & Ht).
    exists (PyFloat y). split; [ | exact Ht].
    assert (Hl : List.length (orig_durations l) = List.length l)
      by (unfold orig_durations; apply length_map).
    subst l. cbn [orig_durations map avg_duration].
    cbn [orig_durations map] in Hsum, Hl. rewrite Hsum, Hl, Hy. reflexivity.
Qed.

(** * The selection loop (lines 38-56) *)

Lemma frame_dur_ok avg d f :
  int_of_number avg = Ok d -> frame_dur avg f = Ok (duration_or d f).
Proof. intro H. unfold frame_dur. rewrite H. reflexivity. Qed.

Lemma kept_indices_bounds d t fs :
  forall i a,
    Forall (fun j => (i <= j < i + List.length fs)%nat) (kept_indices d t i fs a).
Proof.
  induction fs as [ | f fs IH]; intros i a; cbn [kept_indices]; [constructor | ].
  assert (Hrest : forall a', Forall (fun j => (i <= j < i + List.length (f :: fs))%nat)
                               (kept_indices d t (S i) fs a')).
  { intro a'. eapply Forall_impl; [ | apply IH]. cbn [List.length]. intros j Hj. lia. }
  cbv zeta. destruct (_ || _)%bool.
  - constructor; [cbn [List.length]; lia | apply Hrest].
  - apply Hrest.
Qed.

Lemma kept_indices_sorted d t fs :
  forall i a, StronglySorted lt (kept_indices d t i fs a).
Proof.
  induction fs as [ | f fs IH]; intros i a; cbn [kept_indices]; [constructor | ].
  cbv zeta. destruct (_ || _)%bool; [ | apply IH].
  constructor; [apply IH | ].
  eapply Forall_impl; [ | apply kept_indices_bounds]. intros j Hj. cbv beta in Hj. lia.
Qed.

Lemma kept_indices_length d t fs :
  forall i a, (List.length (kept_indices d t i fs a) <= List.length fs)%nat.
Proof.
  induction fs as [ | f fs IH]; intros i a; cbn [kept_indices]; [apply Nat.le_refl | ].
  cbv zeta. destruct (_ || _)%bool; cbn [List.length].
  - apply le_n_S, IH.
  - apply Nat.le_trans with (1 := IH _ _). apply Nat.le_succ_diag_r.
Qed.

Lemma kept_indices_first d t f fs a :
  kept_indices d t 0 (f :: fs) a = O :: kept_indices d t 1 fs (Some 0).
Proof.
  cbn [kept_indices Nat.eqb]. now rewrite orb_true_r.
Qed.

(** The loop appends, for each kept index and in order, that frame's output
    and the target duration. *)
Lemma loop_spec size ns avg t d :
  int_of_number avg = Ok d ->
  forall fs i st,
    exists a,
      loop size ns avg t i fs st
      = Ok {| acc := a;
              frames := frames st ++
                map (fun j => output_frame size ns (frame_at fs (j - i)))
                    (kept_indices d t i fs (acc st));
              durations := durations st ++
                repeat t (List.length (kept_indices d t i fs (acc st))) |}.
Proof.
  intro Hd. induction fs as [ | f fs IH]; intros i st.
  - exists (acc st). cbn [loop kept_indices map List.length repeat].
    rewrite !app_nil_r. now destruct st.
  - cbn [loop kept_indices]. unfold loop_body.
    rewrite (frame_dur_ok _ _ _ Hd). cbn [Py.bind]. cbv zeta.
    assert (Hshift : forall a',
               map (fun j => output_frame size ns (frame_at (f :: fs) (j - i)))
                   (kept_indices d t (S i) fs a')
               = map (fun j => output_frame size ns (frame_at fs (j - S i)))
                     (kept_indices d t (S i) fs a')).
    { intro a'. apply map_ext_in. intros j Hj.
      pose proof (kept_indices_bounds d t fs (S i) a') as Hb.
      rewrite Forall_forall in Hb. specialize (Hb j Hj). cbv beta in Hb.
      unfold frame_at. replace (j - i)%nat with (S (j - S i)) by lia. reflexivity. }
    destruct (_ || _)%bool.
    + destruct (IH (S i) {| acc := Some 0;
                            frames := frames st ++ [resize_to size ns (ConvertRGBA (frame_data f))];
                            durations := durations st ++ [t] |}) as (a & Ha).
      exists a. cbn [Py.bind]. rewrite Ha. cbn [acc frames durations map List.length repeat].
      rewrite Hshift, Nat.sub_diag, <- !app_assoc. reflexivity.
    + destruct (IH (S i) {| acc := Some (match (if Nat.eqb i 0 then Some 0 else acc st) with
                                         | Some a => a | None => 0 end + duration_or d f);
                            frames := frames st;
                            durations := durations st |}) as (a & Ha).
      exists a. cbn [Py.bind]. rewrite Ha. cbn [acc frames durations].
      rewrite Hshift. reflexivity.
Qed.

(** * The selection as a whole (lines 33-64) *)

Ltac zcmp := repeat split; vm_compute; first [reflexivity | discriminate].

Lemma select_frames_char im ns fps n t d :
  avg_duration (orig_durations (im_frames im)) = Ok n ->
  target_frame_duration fps = Ok t ->
  int_of_number n = Ok d ->
  let idx := kept_indices d t 0 (im_frames im) None in
  select_frames im ns fps
  = Ok (match im_frames im with
        | [] => ([resize_to (im_size im) ns (ConvertRGBA (im_data im))], [t])
        | _ => (map (fun j => output_frame (im_size im) ns (frame_at (im_frames im) j)) idx,
                repeat t (List.length idx))
        end).
Proof.
  intros Hn Ht Hd idx. unfold select_frames.
  rewrite Hn, Ht. cbn [Py.bind].
  destruct (loop_spec (im_size im) ns n t d Hd (im_frames im) 0 initial_state)
    as (a & ->).
  cbn [Py.bind frames durations initial_state acc app]. fold idx.
  assert (Hmap : map (fun j => output_frame (im_size im) ns (frame_at (im_frames im) (j - 0))) idx
                 = map (fun j => output_frame (im_size im) ns (frame_at (im_frames im) j)) idx).
  { apply map_ext. intro j. now rewrite Nat.sub_0_r. }
  rewrite Hmap. subst idx.
  destruct (im_frames im) as [ | f fs]; [reflexivity | ].
  rewrite kept_indices_first. reflexivity.
Qed.

Lemma select_frames_returns im fps :
  fps <> 0 -> durations_fit (im_frames im) ->
  exists n t d,
    avg_duration (orig_durations (im_frames im)) = Ok n /\
    target_frame_duration fps = Ok t /\
    int_of_number n = Ok d.
Proof.
  intros Hfps Hfit.
  destruct (avg_duration_returns _ Hfit) as (n & Hn).
  destruct (avg_duration_int _ _ Hn) as (d & Hd).
  exists n, (Z.max 10 (Z.quot 1000 fps)), d.
  split; [assumption | split; [ | assumption]].
  now apply target_frame_duration_quot.
Qed.

Lemma select_frames_inv im ns fps fr ds :
  select_frames im ns fps = Ok (fr, ds) ->
  exists n t d,
    avg_duration (orig_durations (im_frames im)) = Ok n /\
    target_frame_duration fps = Ok t /\
    int_of_number n = Ok d.
Proof.
  unfold select_frames. intro H.
  apply bind_ok in H. destruct H as (n & Hn & H).
  apply bind_ok in H. destruct H as (t & Ht & _).
  destruct (avg_duration_int _ _ Hn) as (d & Hd).
  exists n, t, d. auto.
Qed.

Lemma scenario_b_selection (size ns : Z * Z) (data : Img) (pixels : nat -> Img) :
  select_frames (scenario_b size data pixels) ns 12
  = Ok ([output_frame size ns
           {| frame_data := pixels 0%nat; frame_duration := Some 20 |};
         output_frame size ns
           {| frame_data := pixels 5%nat; frame_duration := Some 20 |}],
        [83; 83]).
Proof.
  assert (Hn : exists n, avg_duration (orig_durations (im_frames (scenario_b size data pixels))) = Ok n
                         /\ int_of_number n = Ok 20).
  { eexists. split; vm_compute; reflexivity. }
  destruct Hn as (n & Hn & Hd).
  rewrite (select_frames_char _ ns 12 n 83 20 Hn eq_refl Hd).
  reflexivity.
Qed.

(** C1 (as amended).  For ten frames of 20 ms each and [fps = 12] the
    threshold is 83 ms and the loop keeps exactly two frames, those at
    indices 0 and 5, each with 83 ms: frames 6 to 9 only add up to 80 ms,
    so no third frame is reached. *)
Theorem C1_scenario_b_keeps_frames_0_and_5 :
  forall (size ns : Z * Z) (data : Img) (pixels : nat -> Img),
    target_frame_duration 12 = Ok 83 /\
    kept_indices 20 83 0 (im_frames (scenario_b size data pixels)) None
      = [0%nat; 5%nat] /\
    select_frames (scenario_b size data pixels) ns 12
      = Ok ([output_frame size ns
               {| frame_data := pixels 0%nat; frame_duration := Some 20 |};
             output_frame size ns
               {| frame_data := pixels 5%nat; frame_duration := Some 20 |}],
            [83; 83]).
Proof.
  intros size ns data pixels.
  split; [vm_compute; reflexivity | ].
  split; [vm_compute; reflexivity | ].
  apply scenario_b_selection.
Qed.

(** C1, as stated, fails: the scenario does not give three frames. *)
Lemma C1_scenario_b_not_three_frames :
  ~ (exists fr ds,
       select_frames (scenario_b (100, 100) (Decoded 0) Decoded) (100, 100) 12
         = Ok (fr, ds) /\
       List.length fr = 3%nat).
Proof.
  intros (fr & ds & H & Hlen).
  rewrite scenario_b_selection in H. injection H as <- <-. discriminate Hlen.
Qed.

(** C2 (as amended).  For every [fps >= 1] the target duration is
    [max(10, floor(1000 / fps))]: the quotient is truncated, not rounded to
    nearest.  It is 83 for [fps = 12] and 10 for [fps = 1000]. *)
Theorem C2_target_duration_truncates :
  (forall fps, 1 <= fps ->
     target_frame_duration fps = Ok (Z.max 10 (1000 / fps))) /\
  target_frame_duration 12 = Ok 83 /\
  target_frame_duration 1000 = Ok 10.
Proof.
  split; [ | split; vm_compute; reflexivity].
  intros fps Hfps.
  rewrite target_frame_duration_quot by lia.
  now rewrite Z.quot_div_nonneg by lia.
Qed.

Lemma C2_witness : target_frame_duration 7 = Ok (Z.max 10 (1000 / 7)).
Proof.
  apply (proj1 C2_target_duration_truncates 7). zcmp.
Defined.

(** C2, as stated, fails at [fps = 7]: the code gives 142 where rounding
    1000 / 7 gives 143. *)
Lemma C2_fps_7_is_142_not_143 :
  target_frame_duration 7 = Ok 142 /\ spec_target_duration 7 = 143.
Proof. split; vm_compute; reflexivity. Qed.

(** C3 (as amended).  A frame without timing metadata is given
    [int(avg_duration)], the truncated mean of all the frames' durations in
    which each missing duration counts as 100 ms.  That is 100 ms when no
    frame has metadata, and otherwise follows the other frames. *)
Theorem C3_missing_duration_is_truncated_mean fs f :
  frame_duration f = None ->
  (Forall (fun g => frame_duration g = None) fs ->
   used_duration fs f = Ok 100) /\
  (fs <> [] -> Z.abs (sum (orig_durations fs)) <= 2 ^ 52 ->
   used_duration fs f
   = Ok (Z.quot (sum (orig_durations fs)) (Z.of_nat (List.length fs)))).
Proof.
  intro Hf. unfold used_duration. split.
  - intro Hall. destruct (avg_duration_all_missing fs Hall) as (n & -> & Hd).
    cbn [Py.bind]. rewrite (frame_dur_ok _ _ _ Hd).
    unfold duration_or. now rewrite Hf.
  - intros Hne Hsum.
    assert (Hne' : orig_durations fs <> []).
    { destruct fs; [contradiction | discriminate]. }
    destruct (avg_duration_quot _ Hne' Hsum) as (n & -> & Hd).
    cbn [Py.bind]. rewrite (frame_dur_ok _ _ _ Hd).
    unfold duration_or. rewrite Hf.
    unfold orig_durations. now rewrite length_map.
Qed.

Lemma C3_witness :
  used_duration
    [{| frame_data := Decoded 0; frame_duration := None |};
     {| frame_data := Decoded 1; frame_duration := None |}]
    {| frame_data := Decoded 1; frame_duration := None |} = Ok 100.
Proof.
  apply (proj1 (C3_missing_duration_is_truncated_mean
                  [{| frame_data := Decoded 0; frame_duration := None |};
                   {| frame_data := Decoded 1; frame_duration := None |}]
                  {| frame_data := Decoded 1; frame_duration := None |} eq_refl)).
  repeat constructor.
Defined.

(** C3, as stated, fails: beside a 20 ms frame, a frame without metadata is
    given 60 ms, not 100 ms. *)
Lemma C3_missing_duration_60_not_100 :
  used_duration
    [{| frame_data := Decoded 0; frame_duration := Some 20 |};
     {| frame_data := Decoded 1; frame_duration := None |}]
    {| frame_data := Decoded 1; frame_duration := None |} = Ok 60.
Proof. vm_compute. reflexivity. Qed.

(** C4 (as amended).  For every frame rate other than 0 and every frame
    sequence whose durations fit a double, the selection returns at least
    one frame with one duration per frame; for the empty sequence it is
    the single frame made from the source image. *)
Theorem C4_selection_is_never_empty im ns fps :
  fps <> 0 -> durations_fit (im_frames im) ->
  exists fr ds t,
    select_frames im ns fps = Ok (fr, ds) /\
    target_frame_duration fps = Ok t /\
    fr <> [] /\ ds = repeat t (List.length fr) /\
    (im_frames im = [] ->
     fr = [resize_to (im_size im) ns (ConvertRGBA (im_data im))]).
Proof.
  intros Hfps Hfit.
  destruct (select_frames_returns im fps Hfps Hfit) as (n & t & d & Hn & Ht & Hd).
  rewrite (select_frames_char im ns fps n t d Hn Ht Hd).
  destruct (im_frames im) as [ | f fs] eqn:E.
  - do 3 eexists. split; [reflexivity | ]. split; [exact Ht | ].
    split; [discriminate | ]. split; reflexivity.
  - do 3 eexists. split; [reflexivity | ]. split; [exact Ht | ].
    rewrite kept_indices_first. cbn [map List.length].
    split; [discriminate | ]. split; [ | discriminate].
    now rewrite length_map.
Qed.

Lemma C4_witness :
  exists fr ds t,
    select_frames {| im_size := (10, 10); im_data := Decoded 0; im_frames := [] |}
                  (10, 10) 12 = Ok (fr, ds) /\
    target_frame_duration 12 = Ok t /\
    fr <> [] /\ ds = repeat t (List.length fr) /\
    ([] = @nil Frame -> fr = [resize_to (10, 10) (10, 10) (ConvertRGBA (Decoded 0))]).
Proof.
  apply (C4_selection_is_never_empty
           {| im_size := (10, 10); im_data := Decoded 0; im_frames := [] |}
           (10, 10) 12).
  - discriminate.
  - constructor.
Defined.

(** C4, as stated, fails for a frame rate of 0: line 36 divides by it. *)
Lemma C4_fps_0_raises :
  select_frames {| im_size := (10, 10); im_data := Decoded 0; im_frames := [] |}
                (10, 10) 0 = Raise ZeroDivisionError.
Proof. vm_compute. reflexivity. Qed.

(** C5.  For a non-empty frame sequence, what the selection returns is the
    output of the frames at strictly increasing indices that start with 0
    and stay within the input (so no more frames than the input has, in
    input order, none twice), every one with the same target duration; and
    it does return for a non-zero frame rate and durations that fit. *)
Theorem C5_selection_thins_in_order im ns fps :
  im_frames im <> [] ->
  (forall fr ds,
     select_frames im ns fps = Ok (fr, ds) ->
     exists idx t,
       target_frame_duration fps = Ok t /\
       hd_error idx = Some 0%nat /\
       (List.length idx <= List.length (im_frames im))%nat /\
       StronglySorted lt idx /\
       Forall (fun j => (j < List.length (im_frames im))%nat) idx /\
       fr = map (fun j => output_frame (im_size im) ns (frame_at (im_frames im) j)) idx /\
       ds = repeat t (List.length idx)) /\
  (fps <> 0 -> durations_fit (im_frames im) ->
   exists fr ds, select_frames im ns fps = Ok (fr, ds)).
Proof.
  intro Hne. split.
  - intros fr ds Hsel.
    destruct (select_frames_inv im ns fps fr ds Hsel) as (n & t & d & Hn & Ht & Hd).
    rewrite (select_frames_char im ns fps n t d Hn Ht Hd) in Hsel.
    exists (kept_indices d t 0 (im_frames im) None), t.
    split; [exact Ht | ].
    destruct (im_frames im) as [ | f fs] eqn:E; [contradiction | ].
    injection Hsel as <- <-.
    split; [now rewrite kept_indices_first | ].
    split; [apply kept_indices_length | ].
    split; [apply kept_indices_sorted | ].
    split; [ | split; reflexivity].
    eapply Forall_impl; [ | apply kept_indices_bounds].
    intros j Hj. cbv beta in Hj. lia.
  - intros Hfps Hfit.
    destruct (select_frames_returns im fps Hfps Hfit) as (n & t & d & Hn & Ht & Hd).
    rewrite (select_frames_char im ns fps n t d Hn Ht Hd).
    do 2 eexists. apply f_equal. apply surjective_pairing.
Qed.

Lemma C5_witness :
  exists fr ds,
    select_frames (scenario_b (100, 100) (Decoded 0) Decoded) (50, 50) 12
      = Ok (fr, ds).
Proof.
  apply (proj2 (C5_selection_thins_in_order
                  (scenario_b (100, 100) (Decoded 0) Decoded) (50, 50) 12
                  ltac:(discriminate))).
  - discriminate.
  - unfold durations_fit. cbn [scenario_b im_frames orig_durations map seq duration_or frame_duration].
    repeat constructor; zcmp.
Defined.

(** C6 (as amended).  For source dimensions from 1 up to (not including)
    [2 ^ 53] and positive bounds up to [2 ^ 1023], the planned size is
    [max(1, int(dimension * min(max_width / w, max_height / h, 1.0)))] as
    evaluated in binary64 arithmetic, and each planned dimension is at
    least 1 and at most the source's. *)
Theorem C6_planned_size_within_source w h max_width max_height :
  1 <= w < 2 ^ 53 -> 1 <= h < 2 ^ 53 ->
  0 < max_width <= 2 ^ 1023 -> 0 < max_height <= 2 ^ 1023 ->
  exists nw nh,
    plan_size w h max_width max_height = Ok (nw, nh) /\
    1 <= nw <= w /\ 1 <= nh <= h.
Proof. apply plan_size_positive. Qed.

Lemma C6_witness :
  exists nw nh, plan_size 98 98 2 2 = Ok (nw, nh) /\
                1 <= nw <= 98 /\ 1 <= nh <= 98.
Proof.
  apply (C6_planned_size_within_source 98 98 2 2); zcmp.
Defined.

(** C6, as stated, fails: for a 98 by 98 source and bounds 2 by 2 the code
    plans 1 by 1, where the formula in exact arithmetic gives 2 (the double
    nearest 2/98, times 98, is just below 2); and for bounds of [2 ^ 1024]
    the division overflows and no size is planned. *)
Lemma C6_rounding_and_overflow :
  plan_size 98 98 2 2 = Ok (1, 1) /\
  spec_dimension 98 98 98 2 2 = 2 /\
  plan_size 1 1 (2 ^ 1024) (2 ^ 1024) = Raise OverflowError.
Proof. repeat split; vm_compute; reflexivity. Qed.

(** C10.  Whatever the integer bounds, zero and negative ones included, a
    planned size is at least 1 on each axis; and a size is planned for all
    bounds of magnitude up to [2 ^ 970] (source dimensions from 1 up to,
    not including, [2 ^ 53]). *)
Theorem C10_planned_size_at_least_1 w h max_width max_height :
  (forall nw nh,
     plan_size w h max_width max_height = Ok (nw, nh) -> 1 <= nw /\ 1 <= nh) /\
  (1 <= w < 2 ^ 53 -> 1 <= h < 2 ^ 53 ->
   Z.abs max_width <= 2 ^ 970 -> Z.abs max_height <= 2 ^ 970 ->
   exists nw nh,
     plan_size w h max_width max_height = Ok (nw, nh) /\ 1 <= nw /\ 1 <= nh).
Proof.
  split.
  - intros nw nh. apply plan_size_at_least_1.
  - intros Hw Hh Hmw Hmh.
    destruct (plan_size_returns w h max_width max_height Hw Hh Hmw Hmh)
      as (nw & nh & H).
    exists nw, nh. split; [exact H | ]. eapply plan_size_at_least_1. exact H.
Qed.

Lemma C10_witness :
  exists nw nh, plan_size 640 480 (-3) 0 = Ok (nw, nh) /\ 1 <= nw /\ 1 <= nh.
Proof.
  apply (proj2 (C10_planned_size_at_least_1 640 480 (-3) 0)); zcmp.
Defined.

(** * The output path (line 73) *)

Local Open Scope string_scope.

Lemma string_length_append s t :
  String.length (s ++ t) = (String.length s + String.length t)%nat.
Proof. induction s as [ | c s IH]; cbn; [reflexivity | now rewrite IH]. Qed.

Lemma rfind_lt c s i : rfind c s = Some i -> (i < String.length s)%nat.
Proof.
  revert i. induction s as [ | a s IH]; intro i; cbn [rfind String.length].
  - discriminate.
  - destruct (rfind c s) as [j | ].
    + intro H. injection H as <-. specialize (IH j eq_refl). lia.
    + destruct (Ascii.eqb a c); [ | discriminate].
      intro H. injection H as <-. lia.
Qed.

Lemma rfind_append c s t :
  rfind c (s ++ t)
  = match rfind c t with
    | Some j => Some (String.length s + j)%nat
    | None => rfind c s
    end.
Proof.
  induction s as [ | a s IH]; cbn [append rfind String.length].
  - destruct (rfind c t); reflexivity.
  - rewrite IH. destruct (rfind c t); reflexivity.
Qed.

Lemma substring_prefix_length n s :
  (n <= String.length s)%nat -> String.length (substring 0 n s) = n.
Proof.
  revert s. induction n as [ | n IH]; intros s Hn.
  - destruct s; reflexivity.
  - destruct s as [ | c s]; cbn [String.length] in Hn; [lia | ].
    cbn [substring String.length]. rewrite IH by lia. reflexivity.
Qed.

Lemma substring_split n s :
  (n <= String.length s)%nat ->
  substring 0 n s ++ substring n (String.length s - n) s = s.
Proof.
  revert s. induction n as [ | n IH]; intros s Hn.
  - rewrite Nat.sub_0_r. cbn [substring append].
    destruct s as [ | c s]; [reflexivity | ].
    clear. cbn [substring append String.length].
    f_equal. induction s as [ | a s IH]; [reflexivity | ].
    cbn [substring String.length]. now rewrite IH.
  - destruct s as [ | c s]; cbn [String.length] in Hn; [lia | ].
    cbn [substring append String.length Nat.sub]. now rewrite IH by lia.
Qed.

Lemma contains_append c s t :
  contains c (s ++ t) = (contains c s || contains c t)%bool.
Proof.
  induction s as [ | a s IH]; cbn [append contains]; [reflexivity | ].
  now rewrite IH, orb_assoc.
Qed.

Lemma contains_substring c n s :
  contains c s = false -> contains c (substring 0 n s) = false.
Proof.
  revert s. induction n as [ | n IH]; intros s H.
  - destruct s; reflexivity.
  - destruct s as [ | a s]; [reflexivity | ].
    cbn [contains] in H. apply orb_false_iff in H. destruct H as [Ha Hs].
    cbn [substring contains]. now rewrite Ha, IH.
Qed.

Lemma suffix_start_spec nm i :
  suffix_start nm = Some i ->
  rfind dot nm = Some i /\ (0 < i)%nat /\ (S i < String.length nm)%nat.
Proof.
  unfold suffix_start. destruct (rfind dot nm) as [j | ]; [ | discriminate].
  destruct (Nat.ltb_spec 0 j) as [H0 | H0]; cbn [andb]; [ | discriminate].
  destruct (Nat.ltb_spec (S j) (String.length nm)) as [H1 | H1]; [ | discriminate].
  intro E. injection E as <-. auto.
Qed.

(** The name with ".optimized.gif" put after its stem is never the name
    itself: the last dot moves. *)
Lemma optimized_name_differs p :
  stem p ++ ".optimized.gif" <> name p.
Proof.
  unfold stem. intro H.
  destruct (suffix_start (name p)) as [i | ] eqn:E.
  - apply suffix_start_spec in E. destruct E as (Hr & _ & Hlen).
    rewrite <- H in Hr at 1. rewrite rfind_append in Hr.
    change (rfind dot ".optimized.gif") with (Some 10%nat) in Hr.
    rewrite substring_prefix_length in Hr by lia.
    injection Hr as Hr. lia.
  - apply (f_equal String.length) in H.
    rewrite string_length_append in H. cbn [String.length] in H. lia.
Qed.

Lemma stem_no_slash p :
  contains slash (name p) = false -> contains slash (stem p) = false.
Proof.
  unfold stem. destruct (suffix_start (name p)); [ | trivial].
  apply contains_substring.
Qed.

Lemma last_snoc {A : Type} (l : list A) (x d : A) : last (l ++ [x]) d = x.
Proof. apply last_last. Qed.

Lemma with_name_optimized p :
  name p <> "" -> contains slash (name p) = false ->
  exists out,
    with_name p (stem p ++ ".optimized.gif") = Ok out /\
    anchor out = anchor p /\
    tail_parts out = (removelast (tail_parts p) ++ [(stem p ++ ".optimized.gif")%string])%list /\
    name out = stem p ++ ".optimized.gif" /\
    out <> p.
Proof.
  intros Hname Hslash. unfold with_name.
  destruct (String.eqb_spec (name p) "") as [ | _]; [contradiction | ].
  assert (H1 : String.eqb (stem p ++ ".optimized.gif") "" = false).
  { apply String.eqb_neq. intro H. apply (f_equal String.length) in H.
    rewrite string_length_append in H. cbn [String.length] in H. lia. }
  assert (H2 : contains slash (stem p ++ ".optimized.gif") = false).
  { rewrite contains_append, (stem_no_slash p Hslash). reflexivity. }
  assert (H3 : String.eqb (stem p ++ ".optimized.gif") "." = false).
  { apply String.eqb_neq. intro H. apply (f_equal String.length) in H.
    rewrite string_length_append in H. cbn [String.length] in H. lia. }
  rewrite H1, H2, H3. cbn [orb].
  eexists. split; [reflexivity | ].
  cbn [anchor tail_parts]. split; [reflexivity | ]. split; [reflexivity | ].
  assert (Hn : name {| anchor := anchor p;
                       tail_parts := (removelast (tail_parts p) ++ [(stem p ++ ".optimized.gif")%string])%list |}
               = stem p ++ ".optimized.gif").
  { unfold name at 1. cbn [tail_parts]. apply last_snoc. }
  split; [exact Hn | ].
  intro Heq. rewrite Heq in Hn. symmetry in Hn.
  exact (optimized_name_differs p Hn).
Qed.

Lemma split_slash_no_slash s :
  Forall (fun c => contains slash c = false) (split_slash s).
Proof.
  induction s as [ | a s IH]; cbn [split_slash].
  - repeat constructor.
  - destruct (Ascii.eqb a slash) eqn:E.
    + constructor; [reflexivity | assumption].
    + destruct (split_slash s) as [ | q qs].
      * repeat constructor. cbn [contains]. now rewrite E.
      * inversion IH as [ | ? ? Hq Hqs]; subst.
        constructor; [ | assumption]. cbn [contains]. now rewrite E, Hq.
Qed.

Lemma last_Forall {A : Type} (P : A -> Prop) (l : list A) (d : A) :
  Forall P l -> P d -> P (last l d).
Proof.
  intros Hl Hd. induction Hl as [ | x l Hx Hl IH]; [assumption | ].
  cbn [last]. destruct l; assumption.
Qed.

Lemma path_of_string_name_no_slash s :
  contains slash (name (path_of_string s)) = false.
Proof.
  unfold name, path_of_string. cbn [tail_parts].
  apply last_Forall with (P := fun c => contains slash c = false); [ | reflexivity].
  apply Forall_forall. intros c Hc. apply filter_In in Hc. destruct Hc as [Hc _].
  pose proof (split_slash_no_slash s) as H. rewrite Forall_forall in H. now apply H.
Qed.

(** C7 (as amended).  For every input path with a final component, the
    output path is the input's directory with file name
    [<input-stem>.optimized.gif] (the extension is always [gif], whatever
    the input's), and it differs from the input path. *)
Theorem C7_output_beside_input_never_the_input s :
  name (path_of_string s) <> "" ->
  exists out,
    with_name (path_of_string s) (stem (path_of_string s) ++ ".optimized.gif")
      = Ok out /\
    anchor out = anchor (path_of_string s) /\
    removelast (tail_parts out) = removelast (tail_parts (path_of_string s)) /\
    name out = stem (path_of_string s) ++ ".optimized.gif" /\
    out <> path_of_string s.
Proof.
  intro Hname.
  destruct (with_name_optimized (path_of_string s) Hname
              (path_of_string_name_no_slash s))
    as (out & Hout & Ha & Ht & Hn & Hne).
  exists out. split; [exact Hout | ]. split; [exact Ha | ].
  split; [ | split; assumption].
  rewrite Ht. apply removelast_last.
Qed.

Lemma C7_witness :
  exists out,
    with_name (path_of_string "clips/anim.gif")
              (stem (path_of_string "clips/anim.gif") ++ ".optimized.gif")
      = Ok out /\
    anchor out = anchor (path_of_string "clips/anim.gif") /\
    removelast (tail_parts out)
      = removelast (tail_parts (path_of_string "clips/anim.gif")) /\
    name out = stem (path_of_string "clips/anim.gif") ++ ".optimized.gif" /\
    out <> path_of_string "clips/anim.gif".
Proof.
  apply (C7_output_beside_input_never_the_input "clips/anim.gif").
  vm_compute. discriminate.
Defined.

(** C7, as stated, fails for an input that is not named [*.gif]: the
    output of [clips/anim.png] is [clips/anim.optimized.gif], not
    [anim.optimized.png]. *)
Lemma C7_png_input_gets_gif_name :
  with_name (path_of_string "clips/anim.png")
            (stem (path_of_string "clips/anim.png") ++ ".optimized.gif")
    = Ok (path_of_string "clips/anim.optimized.gif") /\
  spec_output_name (path_of_string "clips/anim.png") = "anim.optimized.png".
Proof. split; vm_compute; reflexivity. Qed.

(** * Flags (lines 107-120) *)

Lemma get_flag_absent args nm default :
  index args nm = None -> get_flag args nm default = default.
Proof. intro H. unfold get_flag. now rewrite H. Qed.

Lemma get_flag_unparseable args nm default :
  unparseable_value args nm -> get_flag args nm default = default.
Proof.
  intros (idx & v & e & Hidx & Hv & Hint). unfold get_flag, item.
  rewrite Hidx, Hv. cbn [Py.bind]. rewrite Hint. reflexivity.
Qed.

(** C8 (as amended).  When the argument after the first occurrence of a
    numeric flag, the one [args.index] finds, is refused by [int], flag
    parsing does not fail and gives the flag's default, the value it
    gives when the flag is absent: 480, 480, 128 and 12 for the four
    flags. *)
Theorem C8_unparseable_value_gives_default args :
  (forall nm default,
     unparseable_value args nm ->
     get_flag args nm default = default /\
     forall args', index args' nm = None ->
                   get_flag args' nm default = get_flag args nm default) /\
  (unparseable_value args "--max-width" ->
   fst (fst (fst (parsed_flags args))) = 480) /\
  (unparseable_value args "--max-height" ->
   snd (fst (fst (parsed_flags args))) = 480) /\
  (unparseable_value args "--colors" -> snd (fst (parsed_flags args)) = 128) /\
  (unparseable_value args "--fps" -> snd (parsed_flags args) = 12).
Proof.
  split.
  - intros nm default H. split; [now apply get_flag_unparseable | ].
    intros args' Habs.
    now rewrite get_flag_absent, get_flag_unparseable.
  - unfold parsed_flags. cbn [fst snd].
    repeat split; apply get_flag_unparseable.
Qed.

Lemma C8_witness : snd (parsed_flags ["--colors"; "64"; "--fps"; "fast"]) = 12.
Proof.
  apply (proj2 (proj2 (proj2 (proj2
           (C8_unparseable_value_gives_default ["--colors"; "64"; "--fps"; "fast"]))))).
  exists 2%nat, "fast", ValueError. repeat split; reflexivity.
Defined.

(** C8, as stated, fails when the flag occurs more than once: in
    [--fps 24 --fps oops] the flag is followed by [oops], which is not an
    integer, and the frame rate is 24, not the default 12. *)
Lemma C8_later_value_is_not_read :
  nth_error ["--fps"; "24"; "--fps"; "oops"] 2 = Some "--fps" /\
  nth_error ["--fps"; "24"; "--fps"; "oops"] 3 = Some "oops" /\
  py_int "oops" = Raise ValueError /\
  get_flag ["--fps"; "24"; "--fps"; "oops"] "--fps" 12 = 24%Z /\
  snd (parsed_flags ["--fps"; "24"; "--fps"; "oops"]) <> 12%Z.
Proof.
  repeat split; try (vm_compute; reflexivity). vm_compute. discriminate.
Qed.

(** C9 (as amended).  When the first occurrence of the flag, the one
    [args.index] finds, is the last argument, with no value after it, flag
    parsing does not raise: the [IndexError] is caught like a failed
    conversion and the default is used. *)
Theorem C9_flag_without_value_gives_default args nm default idx :
  index args nm = Some idx -> (idx + 1 = List.length args)%nat ->
  item args (idx + 1) = Raise IndexError /\
  get_flag args nm default = default.
Proof.
  intros Hidx Hlast.
  assert (Hitem : item args (idx + 1) = Raise IndexError).
  { unfold item.
    assert (Hn : nth_error args (idx + 1) = None) by (apply nth_error_None; lia).
    now rewrite Hn. }
  split; [exact Hitem | ].
  unfold get_flag. rewrite Hidx, Hitem. reflexivity.
Qed.

Lemma C9_witness :
  item ["--colors"; "64"; "--fps"] (2 + 1) = Raise IndexError /\
  get_flag ["--colors"; "64"; "--fps"] "--fps" 12 = 12.
Proof.
  apply (C9_flag_without_value_gives_default ["--colors"; "64"; "--fps"] "--fps" 12 2);
    reflexivity.
Defined.

(** C9, as stated, fails when the flag has occurred before: in
    [--fps 24 --fps] the flag is the last argument with no value after it,
    and the frame rate is 24, not the default 12. *)
Lemma C9_earlier_value_is_read :
  nth_error ["--fps"; "24"; "--fps"] 2 = Some "--fps" /\
  List.length ["--fps"; "24"; "--fps"] = 3%nat /\
  get_flag ["--fps"; "24"; "--fps"] "--fps" 12 = 24%Z /\
  snd (parsed_flags ["--fps"; "24"; "--fps"]) <> 12%Z.
Proof.
  repeat split; try (vm_compute; reflexivity). vm_compute. discriminate.
Qed.

(** * Further properties of the selection *)

Local Open Scope Z_scope.

Lemma target_frame_duration_ge_10 fps t :
  target_frame_duration fps = Ok t -> 10 <= t.
Proof.
  unfold target_frame_duration. intro H.
  repeat (apply bind_ok in H; destruct H as (? & _ & H)).
  injection H as <-. lia.
Qed.

(** Lines 33-64, as a whole: what [select_frames] returns. *)
Lemma select_frames_plan im ns fps fr ds :
  select_frames im ns fps = Ok (fr, ds) ->
  exists t,
    target_frame_duration fps = Ok t /\ 10 <= t /\
    fr <> [] /\ ds = repeat t (List.length fr) /\
    (List.length fr <= Nat.max 1 (List.length (im_frames im)))%nat.
Proof.
  intro Hsel.
  destruct (select_frames_inv im ns fps fr ds Hsel) as (n & t & d & Hn & Ht & Hd).
  rewrite (select_frames_char im ns fps n t d Hn Ht Hd) in Hsel.
  exists t. split; [exact Ht | ].
  split; [exact (target_frame_duration_ge_10 fps t Ht) | ].
  destruct (im_frames im) as [ | f fs] eqn:E.
  - injection Hsel as <- <-. repeat split; [discriminate | cbn; lia].
  - cbv zeta in Hsel. rewrite kept_indices_first in Hsel.
    injection Hsel as <- <-. cbn [map List.length]. rewrite length_map.
    split; [discriminate | ].
    split; [reflexivity | ].
    pose proof (kept_indices_length d t fs 1 (Some 0)).
    cbn [List.length]. lia.
Qed.

(** What the selection hands on is never empty, has one duration per
    frame, all equal to a target of at least 10 ms, and has no more frames
    than the input (one, for an empty input). *)
Theorem selection_plan_invariant im ns fps fr ds :
  select_frames im ns fps = Ok (fr, ds) ->
  exists t,
    target_frame_duration fps = Ok t /\ 10 <= t /\
    fr <> [] /\ ds = repeat t (List.length fr) /\
    (List.length fr <= Nat.max 1 (List.length (im_frames im)))%nat.
Proof. exact (select_frames_plan im ns fps fr ds). Qed.

Lemma selection_plan_invariant_witness :
  exists t,
    target_frame_duration 12 = Ok t /\ 10 <= t /\
    [ConvertRGBA (Decoded 0); ConvertRGBA (Decoded 5)] <> [] /\
    [83; 83] = repeat t 2 /\
    (2 <= Nat.max 1 (List.length (im_frames (scenario_b (100%Z, 100%Z) (Decoded 0) Decoded))))%nat.
Proof.
  apply (selection_plan_invariant
           (scenario_b (100, 100) (Decoded 0) Decoded) (100, 100) 12
           [ConvertRGBA (Decoded 0); ConvertRGBA (Decoded 5)] [83; 83]).
  vm_compute. reflexivity.
Defined.

(** For every frame rate other than 0, negative ones included, the target
    is [max(10, 1000 / fps)] with the quotient truncated toward zero; so it
    is exactly the 10 ms floor for every negative rate and every rate
    above 100. *)
Theorem target_duration_floor fps :
  fps <> 0 ->
  target_frame_duration fps = Ok (Z.max 10 (Z.quot 1000 fps)) /\
  (fps < 0 \/ 100 < fps -> target_frame_duration fps = Ok 10).
Proof.
  intro Hfps. pose proof (target_frame_duration_quot fps Hfps) as H.
  split; [exact H | ].
  intros Hrange. rewrite H. f_equal.
  destruct Hrange as [Hneg | Hbig].
  - pose proof (Z.quot_opp_r 1000 (- fps) ltac:(lia)) as Ho.
    rewrite Z.opp_involutive in Ho.
    pose proof (Z.quot_pos 1000 (- fps) ltac:(lia) ltac:(lia)). lia.
  - rewrite Z.quot_div_nonneg by lia.
    assert (1000 / fps < 10) by (apply Z.div_lt_upper_bound; lia).
    lia.
Qed.

Lemma target_duration_floor_witness :
  target_frame_duration (-24) = Ok (Z.max 10 (Z.quot 1000 (-24))) /\
  (-24 < 0 \/ 100 < -24 -> target_frame_duration (-24) = Ok 10).
Proof.
  apply (target_duration_floor (-24)). discriminate.
Defined.

Lemma kept_indices_all d t fs :
  Forall (fun f => t <= duration_or d f) fs ->
  forall i, kept_indices d t i fs (Some 0) = seq i (List.length fs).
Proof.
  induction 1 as [ | f fs Hf _ IH]; intro i; cbn [kept_indices List.length seq];
    [reflexivity | ].
  assert (Hacc : (match (if Nat.eqb i 0 then Some 0 else Some 0) with
                  | Some a => a | None => 0 end + duration_or d f >=? t) = true).
  { destruct (Nat.eqb i 0); apply Z.geb_le; lia. }
  rewrite Hacc. cbn [orb]. now rewrite IH.
Qed.

Lemma map_frame_at_seq {B : Type} (g : Frame -> B) fs :
  forall i,
    map (fun j => g (frame_at fs (j - i))) (seq i (List.length fs)) = map g fs.
Proof.
  induction fs as [ | f fs IH]; intro i; cbn [List.length seq map]; [reflexivity | ].
  rewrite Nat.sub_diag. unfold frame_at at 1. cbn [nth]. f_equal.
  rewrite <- (IH (S i)). apply map_ext_in. intros j Hj.
  apply in_seq in Hj. unfold frame_at.
  replace (j - i)%nat with (S (j - S i)) by lia. reflexivity.
Qed.

(** When every frame carries a duration of at least the target, nothing is
    dropped: the output is every input frame, in order (the specification's
    scenario A, for any such input). *)
Theorem every_frame_kept_when_durations_reach_target im ns fps t :
  target_frame_duration fps = Ok t ->
  durations_fit (im_frames im) ->
  im_frames im <> [] ->
  Forall (fun f => exists x, frame_duration f = Some x /\ t <= x) (im_frames im) ->
  select_frames im ns fps
  = Ok (map (output_frame (im_size im) ns) (im_frames im),
        repeat t (List.length (im_frames im))).
Proof.
  intros Ht Hfit Hne Hall.
  destruct (avg_duration_returns _ Hfit) as (n & Hn).
  destruct (avg_duration_int _ _ Hn) as (d & Hd).
  rewrite (select_frames_char im ns fps n t d Hn Ht Hd).
  destruct (im_frames im) as [ | f fs] eqn:E; [contradiction | ].
  assert (Hall' : Forall (fun g => t <= duration_or d g) fs).
  { inversion Hall as [ | ? ? _ Hrest]; subst.
    eapply Forall_impl; [ | exact Hrest].
    intros g (x & Hx & Hle). unfold duration_or. now rewrite Hx. }
  rewrite kept_indices_first, (kept_indices_all d t fs Hall' 1).
  change (O :: seq 1 (List.length fs)) with (seq 0 (List.length (f :: fs))).
  rewrite length_seq.
  pose proof (map_frame_at_seq (output_frame (im_size im) ns) (f :: fs) 0) as Hm.
  rewrite <- Hm. f_equal. f_equal. apply map_ext. intro j. now rewrite Nat.sub_0_r.
Qed.

Lemma every_frame_kept_witness :
  select_frames
    {| im_size := (64, 64); im_data := Decoded 0;
       im_frames := [{| frame_data := Decoded 0; frame_duration := Some 100 |};
                     {| frame_data := Decoded 1; frame_duration := Some 90 |}] |}
    (64, 64) 12
  = Ok (map (output_frame (64, 64) (64, 64))
            [{| frame_data := Decoded 0; frame_duration := Some 100 |};
             {| frame_data := Decoded 1; frame_duration := Some 90 |}],
        repeat 83 2).
Proof.
  apply (every_frame_kept_when_durations_reach_target
           {| im_size := (64, 64); im_data := Decoded 0;
              im_frames := [{| frame_data := Decoded 0; frame_duration := Some 100 |};
                            {| frame_data := Decoded 1; frame_duration := Some 90 |}] |}
           (64, 64) 12 83).
  - vm_compute. reflexivity.
  - unfold durations_fit. cbn [im_frames orig_durations map duration_or frame_duration].
    repeat constructor; zcmp.
  - discriminate.
  - cbn [im_frames]. repeat constructor.
    + exists 100. split; [reflexivity | zcmp].
    + exists 90. split; [reflexivity | zcmp].
Defined.

Lemma kept_count_bound d t fs :
  0 < t -> Forall (fun f => 0 <= duration_or d f) fs ->
  forall i a, i <> O -> 0 <= a ->
    t * Z.of_nat (List.length (kept_indices d t i fs (Some a)))
    <= a + sum (map (duration_or d) fs).
Proof.
  intros Ht. induction 1 as [ | f fs Hf _ IH]; intros i a Hi Ha.
  - cbn. lia.
  - cbn [kept_indices map]. rewrite sum_cons.
    destruct (Nat.eqb_spec i 0) as [ | _]; [contradiction | ].
    rewrite orb_false_r.
    destruct (Z.geb_spec (a + duration_or d f) t) as [Hge | Hlt].
    + cbn [List.length]. rewrite Nat2Z.inj_succ.
      specialize (IH (S i) 0 ltac:(lia) ltac:(lia)). lia.
    + specialize (IH (S i) (a + duration_or d f) ltac:(lia) ltac:(lia)). lia.
Qed.

(** Each frame kept after the first uses up at least one target duration
    of the input's running time: when every frame carries a non-negative
    duration, (frames kept - 1) * target is at most the total duration of
    the frames after the first. *)
Theorem kept_frames_bounded_by_running_time im ns fps fr ds t f0 rest :
  im_frames im = f0 :: rest ->
  Forall (fun f => exists x, frame_duration f = Some x /\ 0 <= x) (im_frames im) ->
  select_frames im ns fps = Ok (fr, ds) ->
  target_frame_duration fps = Ok t ->
  (Z.of_nat (List.length fr) - 1) * t <= sum (orig_durations rest).
Proof.
  intros E Hall Hsel Ht.
  destruct (select_frames_inv im ns fps fr ds Hsel) as (n & t' & d & Hn & Ht' & Hd).
  assert (t' = t) by congruence. subst t'.
  rewrite (select_frames_char im ns fps n t d Hn Ht Hd) in Hsel.
  rewrite E in *. cbv zeta in Hsel. rewrite kept_indices_first in Hsel.
  injection Hsel as <- _.
  cbn [map List.length]. rewrite length_map.
  rewrite Nat2Z.inj_succ.
  inversion Hall as [ | ? ? _ Hrest]; subst.
  assert (Hd0 : Forall (fun f => 0 <= duration_or d f) rest).
  { eapply Forall_impl; [ | exact Hrest].
    intros g (x & Hx & Hle). unfold duration_or. now rewrite Hx. }
  assert (Hsame : map (duration_or d) rest = orig_durations rest).
  { unfold orig_durations. apply map_ext_in. intros g Hg.
    rewrite Forall_forall in Hrest. destruct (Hrest g Hg) as (x & Hx & _).
    unfold duration_or. now rewrite Hx. }
  pose proof (target_frame_duration_ge_10 fps t Ht) as H10.
  pose proof (kept_count_bound d t rest ltac:(lia) Hd0 1%nat 0 ltac:(lia) ltac:(lia)) as Hb.
  rewrite Hsame in Hb. lia.
Qed.

Lemma kept_frames_bounded_witness :
  (Z.of_nat (List.length [ConvertRGBA (Decoded 0); ConvertRGBA (Decoded 5)]) - 1) * 83
  <= sum (orig_durations
            (map (fun n => {| frame_data := Decoded n; frame_duration := Some 20 |})
                 (seq 1 9))).
Proof.
  apply (kept_frames_bounded_by_running_time
           (scenario_b (100, 100) (Decoded 0) Decoded) (100, 100) 12
           [ConvertRGBA (Decoded 0); ConvertRGBA (Decoded 5)] [83; 83] 83
           {| frame_data := Decoded 0; frame_duration := Some 20 |}
           (map (fun n => {| frame_data := Decoded n; frame_duration := Some 20 |})
                (seq 1 9))).
  - reflexivity.
  - cbn [scenario_b im_frames map seq]. repeat constructor;
      (exists 20; split; [reflexivity | zcmp]).
  - vm_compute. reflexivity.
  - vm_compute. reflexivity.
Defined.

(** * Further properties of the output path *)

Local Open Scope string_scope.

Lemma substring_append_prefix s t n :
  substring 0 (String.length s + n) (s ++ t) = s ++ substring 0 n t.
Proof.
  induction s as [ | c s IH]; cbn [String.length append Nat.add]; [reflexivity | ].
  cbn [substring]. now rewrite IH.
Qed.

Lemma substring_append_skip s t n m :
  substring (String.length s + n) m (s ++ t) = substring n m t.
Proof.
  induction s as [ | c s IH]; cbn [String.length append Nat.add]; [reflexivity | ].
  cbn [substring]. exact IH.
Qed.

Lemma with_name_ok p nm out :
  with_name p nm = Ok out ->
  name p <> "" /\ out = {| anchor := anchor p;
                           tail_parts := (removelast (tail_parts p) ++ [nm])%list |} /\
  name out = nm.
Proof.
  unfold with_name.
  destruct (String.eqb_spec (name p) "") as [ | Hne]; [discriminate | ].
  destruct (_ || _ || _)%bool; [discriminate | ].
  intro H. injection H as <-. split; [assumption | ]. split; [reflexivity | ].
  unfold name. cbn [tail_parts]. apply last_snoc.
Qed.

(** The written file's name always has the suffix [.gif] and the stem
    [<input-stem>.optimized]; a second run on the output therefore writes
    [<input-stem>.optimized.optimized.gif]. *)
Theorem output_name_has_gif_suffix p out :
  with_name p (stem p ++ ".optimized.gif") = Ok out ->
  suffix out = ".gif" /\ stem out = stem p ++ ".optimized".
Proof.
  intro H. apply with_name_ok in H. destruct H as (_ & _ & Hn).
  assert (Hr : rfind dot (stem p ++ ".optimized.gif")
               = Some (String.length (stem p) + 10)%nat).
  { rewrite rfind_append. reflexivity. }
  assert (Hlen : String.length (stem p ++ ".optimized.gif")
                 = (String.length (stem p) + 14)%nat).
  { rewrite string_length_append. reflexivity. }
  assert (Hs : suffix_start (name out) = Some (String.length (stem p) + 10)%nat).
  { rewrite Hn. unfold suffix_start. rewrite Hr, Hlen.
    replace (Nat.ltb 0 (String.length (stem p) + 10)) with true
      by (symmetry; apply Nat.ltb_lt; lia).
    replace (Nat.ltb (S (String.length (stem p) + 10)) (String.length (stem p) + 14))
      with true by (symmetry; apply Nat.ltb_lt; lia).
    reflexivity. }
  unfold suffix, stem at 1. rewrite Hs, Hn, Hlen. split.
  - replace (String.length (stem p) + 14 - (String.length (stem p) + 10))%nat
      with 4%nat by lia.
    rewrite substring_append_skip. reflexivity.
  - rewrite substring_append_prefix. reflexivity.
Qed.

Lemma output_name_has_gif_suffix_witness :
  suffix (path_of_string "clips/anim.optimized.gif") = ".gif" /\
  stem (path_of_string "clips/anim.optimized.gif")
  = stem (path_of_string "clips/anim.png") ++ ".optimized".
Proof.
  apply (output_name_has_gif_suffix (path_of_string "clips/anim.png")
           (path_of_string "clips/anim.optimized.gif")).
  vm_compute. reflexivity.
Defined.

(** * Further properties of the flags *)

Lemma index_first pre nm rest :
  ~ In nm pre -> index (pre ++ nm :: rest) nm = Some (List.length pre).
Proof.
  induction pre as [ | a pre IH]; intro Hnot; cbn [app index List.length].
  - now rewrite String.eqb_refl.
  - destruct (String.eqb_spec a nm) as [-> | _].
    + exfalso. apply Hnot. now left.
    + rewrite IH; [reflexivity | ]. intro Hin. apply Hnot. now right.
Qed.

Lemma index_Some_In args nm idx :
  index args nm = Some idx -> nth_error args idx = Some nm.
Proof.
  revert idx. induction args as [ | a args IH]; intro idx; cbn [index]; [discriminate | ].
  destruct (String.eqb_spec a nm) as [-> | _].
  - intro H. injection H as <-. reflexivity.
  - destruct (index args nm) as [j | ]; cbn [option_map]; [ | discriminate].
    intro H. injection H as <-. cbn [nth_error]. now apply IH.
Qed.

(** The first occurrence of a flag decides: when [int] accepts the
    argument after it, that integer is the flag's value whatever comes
    later, further occurrences of the same flag included. *)
Theorem get_flag_first_occurrence_wins pre nm v post default z :
  ~ In nm pre -> py_int v = Ok z ->
  get_flag (pre ++ nm :: v :: post) nm default = z.
Proof.
  intros Hnot Hv. unfold get_flag, item.
  rewrite (index_first pre nm (v :: post) Hnot).
  assert (Hnth : nth_error (pre ++ nm :: v :: post) (List.length pre + 1) = Some v).
  { rewrite nth_error_app2 by lia.
    replace (List.length pre + 1 - List.length pre)%nat with 1%nat by lia.
    reflexivity. }
  rewrite Hnth. cbn [Py.bind]. rewrite Hv. reflexivity.
Qed.

Lemma get_flag_first_occurrence_wins_witness :
  get_flag (["--colors"; "64"] ++ "--fps" :: "24" :: ["--fps"; "oops"]) "--fps" 12
  = 24.
Proof.
  apply (get_flag_first_occurrence_wins ["--colors"; "64"] "--fps" "24"
           ["--fps"; "oops"] 12 24).
  - cbn [In]. intros [H | [H | []]]; discriminate H.
  - vm_compute. reflexivity.
Defined.

(** * [optimize_gif] as a whole *)

Local Open Scope Z_scope.

Lemma quantize_ok colors f q :
  quantize colors f = Ok q ->
  q = QuantizeAdaptive f colors /\ 1 <= colors <= 256.
Proof.
  unfold quantize.
  destruct (_ || _)%bool; [discriminate | ].
  destruct ((colors <? 1) || (256 <? colors))%bool eqn:E; [discriminate | ].
  apply orb_false_elim in E. destruct E as [E1 E2].
  apply Z.ltb_ge in E1, E2.
  intro H. injection H as <-. split; [reflexivity | lia].
Qed.

Lemma quantize_valid colors f :
  1 <= colors <= 256 -> quantize colors f = Ok (QuantizeAdaptive f colors).
Proof.
  intro H. unfold quantize.
  replace (colors <? - 2 ^ 31) with false
    by (symmetry; apply Z.ltb_ge; change (2 ^ 31) with 2147483648; lia).
  replace (2 ^ 31 - 1 <? colors) with false
    by (symmetry; apply Z.ltb_ge; change (2 ^ 31) with 2147483648; lia).
  replace (colors <? 1) with false by (symmetry; apply Z.ltb_ge; lia).
  replace (256 <? colors) with false by (symmetry; apply Z.ltb_ge; lia).
  reflexivity.
Qed.

Lemma quantize_all_ok colors fs qs :
  quantize_all colors fs = Ok qs ->
  qs = map (fun f => QuantizeAdaptive f colors) fs.
Proof.
  revert qs. induction fs as [ | f fs IH]; intros qs; cbn [quantize_all map].
  - intro H. now injection H as <-.
  - intro H.
    apply bind_ok in H. destruct H as (q & Hq & H).
    apply bind_ok in H. destruct H as (qs' & Hqs & H).
    injection H as <-.
    apply quantize_ok in Hq. destruct Hq as [-> _].
    now rewrite (IH qs' Hqs).
Qed.

Lemma quantize_all_valid colors fs :
  1 <= colors <= 256 ->
  quantize_all colors fs = Ok (map (fun f => QuantizeAdaptive f colors) fs).
Proof.
  intro H. induction fs as [ | f fs IH]; cbn [quantize_all map]; [reflexivity | ].
  rewrite (quantize_valid colors f H). cbn [Py.bind]. rewrite IH. reflexivity.
Qed.

(** A number of colours that fits a C [int] and is outside 1..256 is
    refused at the first frame. *)
Lemma quantize_all_refused colors f fs :
  - 2 ^ 31 <= colors <= 2 ^ 31 - 1 -> colors < 1 \/ 256 < colors ->
  quantize_all colors (f :: fs) = Raise ValueError.
Proof.
  intros Hint Hout. cbn [quantize_all]. unfold quantize.
  replace (colors <? - 2 ^ 31) with false by (symmetry; apply Z.ltb_ge; lia).
  replace (2 ^ 31 - 1 <? colors) with false by (symmetry; apply Z.ltb_ge; lia).
  cbn [orb].
  replace ((colors <? 1) || (256 <? colors))%bool with true; [reflexivity | ].
  symmetry. apply orb_true_iff.
  destruct Hout; [left | right]; apply Z.ltb_lt; assumption.
Qed.

Lemma select_frames_nonempty im ns fps :
  fps <> 0 -> durations_fit (im_frames im) ->
  exists fr ds, select_frames im ns fps = Ok (fr, ds) /\ fr <> [].
Proof.
  intros Hfps Hfit.
  destruct (select_frames_returns im fps Hfps Hfit) as (n & t & d & Hn & Ht & Hd).
  pose proof (select_frames_char im ns fps n t d Hn Ht Hd) as Hsel.
  cbv zeta in Hsel.
  destruct (select_frames im ns fps) as [[fr ds] | e] eqn:E; [ | discriminate].
  exists fr, ds. split; [reflexivity | ].
  destruct (select_frames_plan im ns fps fr ds E) as (_ & _ & _ & Hne & _).
  exact Hne.
Qed.

Section SaveFacts.

Variable image_save : SaveCall -> result unit.

(** What a returned call to [optimize_gif] has saved. *)
Lemma optimize_gif_saved im p max_width max_height colors fps call out :
  optimize_gif image_save im p max_width max_height colors fps
    = Ok (call, out) ->
  save_fp call = out /\ out <> p /\
  name out = (stem p ++ ".optimized.gif")%string /\
  (exists fr t,
     save_self call :: append_images call
       = map (fun f => QuantizeAdaptive f colors) fr /\
     target_frame_duration fps = Ok t /\ 10 <= t /\
     duration call = repeat t (List.length fr) /\
     (List.length fr <= Nat.max 1 (List.length (im_frames im)))%nat) /\
  save_all call = true /\ loop_count call = 0 /\ optimize call = true /\
  disposal call = 2 /\ transparency call = 0.
Proof.
  unfold optimize_gif. intro H.
  apply bind_ok in H. destruct H as (new_size & _ & H).
  apply bind_ok in H. destruct H as ([fr ds] & Hsel & H).
  apply bind_ok in H. destruct H as (paletted & Hq & H).
  apply bind_ok in H. destruct H as (out' & Hout & H).
  cbn [fst snd] in Hq, H.
  destruct (select_frames_plan im new_size fps fr ds Hsel)
    as (t & Ht & H10 & Hne & Hds & Hlen).
  apply quantize_all_ok in Hq.
  destruct paletted as [ | first rest]; [discriminate | ].
  apply bind_ok in H. destruct H as (saved & _ & H).
  injection H as <- <-. cbn.
  destruct (with_name_ok _ _ _ Hout) as (_ & _ & Hn).
  split; [reflexivity | ].
  split.
  { intro Heq. rewrite Heq in Hn. symmetry in Hn.
    exact (optimized_name_differs p Hn). }
  split; [exact Hn | ].
  split; [ | repeat split].
  exists fr, t. repeat split; assumption.
Qed.

(** Whenever [optimize_gif] saves: it saves to the path it returns, never
    to the input path; the name is [<stem>.optimized.gif]; every saved frame
    is quantised to [colors]; there is exactly one duration per saved
    frame, all equal and at least 10 ms; and no more frames are saved than
    the input has (one, for an input without frames). *)
Theorem optimize_gif_save_invariant im p max_width max_height colors fps call out :
  optimize_gif image_save im p max_width max_height colors fps
    = Ok (call, out) ->
  save_fp call = out /\ out <> p /\
  name out = (stem p ++ ".optimized.gif")%string /\
  (exists fr t,
     save_self call :: append_images call
       = map (fun f => QuantizeAdaptive f colors) fr /\
     target_frame_duration fps = Ok t /\ 10 <= t /\
     duration call = repeat t (List.length fr) /\
     (List.length fr <= Nat.max 1 (List.length (im_frames im)))%nat) /\
  save_all call = true /\ loop_count call = 0 /\ optimize call = true /\
  disposal call = 2 /\ transparency call = 0.
Proof. exact (optimize_gif_saved im p max_width max_height colors fps call out). Qed.

(** [optimize_gif] is total on well-formed inputs when the file can be
    written. *)
Lemma optimize_gif_total im p max_width max_height colors fps :
  1 <= fst (im_size im) < 2 ^ 53 -> 1 <= snd (im_size im) < 2 ^ 53 ->
  Z.abs max_width <= 2 ^ 970 -> Z.abs max_height <= 2 ^ 970 ->
  1 <= colors <= 256 ->
  fps <> 0 -> durations_fit (im_frames im) ->
  name p <> ""%string -> contains slash (name p) = false ->
  (forall call, image_save call = Ok tt) ->
  exists call out,
    optimize_gif image_save im p max_width max_height colors fps
      = Ok (call, out).
Proof.
  intros Hw Hh Hmw Hmh Hcol Hfps Hfit Hname Hslash Hsave.
  destruct (plan_size_returns _ _ _ _ Hw Hh Hmw Hmh) as (nw & nh & Hplan).
  destruct (select_frames_nonempty im (nw, nh) fps Hfps Hfit)
    as (fr & ds & Hsel & Hne).
  destruct (with_name_optimized p Hname Hslash) as (out & Hout & _).
  unfold optimize_gif. rewrite Hplan. cbn [Py.bind]. rewrite Hsel.
  cbn [Py.bind fst snd].
  rewrite (quantize_all_valid colors fr Hcol). cbn [Py.bind].
  rewrite Hout. cbn [Py.bind].
  destruct fr as [ | f fr]; [contradiction | ].
  cbn [map]. rewrite Hsave. cbn [Py.bind]. eexists. eexists. reflexivity.
Qed.

(** [optimize_gif] returns, whenever the file itself can be written, for
    every decoded image of at least 1 by 1 (below [2 ^ 53]) whose durations
    fit a double, every path with a final component, bounds of magnitude
    up to [2 ^ 970], a number of colours from 1 to 256 and every frame
    rate other than 0. *)
Theorem optimize_gif_returns im p max_width max_height colors fps :
  1 <= fst (im_size im) < 2 ^ 53 -> 1 <= snd (im_size im) < 2 ^ 53 ->
  Z.abs max_width <= 2 ^ 970 -> Z.abs max_height <= 2 ^ 970 ->
  1 <= colors <= 256 ->
  fps <> 0 -> durations_fit (im_frames im) ->
  name p <> ""%string -> contains slash (name p) = false ->
  (forall call, image_save call = Ok tt) ->
  exists call out,
    optimize_gif image_save im p max_width max_height colors fps
      = Ok (call, out).
Proof. exact (optimize_gif_total im p max_width max_height colors fps). Qed.

(** A number of colours outside 1..256 is not caught before the work is
    done: on inputs that are otherwise well formed, [optimize_gif] plans
    the size, selects the frames and then raises [ValueError] at line 70,
    before anything is written. *)
Theorem optimize_gif_refuses_colors im p max_width max_height colors fps :
  1 <= fst (im_size im) < 2 ^ 53 -> 1 <= snd (im_size im) < 2 ^ 53 ->
  Z.abs max_width <= 2 ^ 970 -> Z.abs max_height <= 2 ^ 970 ->
  - 2 ^ 31 <= colors <= 2 ^ 31 - 1 -> colors < 1 \/ 256 < colors ->
  fps <> 0 -> durations_fit (im_frames im) ->
  optimize_gif image_save im p max_width max_height colors fps
    = Raise ValueError.
Proof.
  intros Hw Hh Hmw Hmh Hint Hcol Hfps Hfit.
  destruct (plan_size_returns _ _ _ _ Hw Hh Hmw Hmh) as (nw & nh & Hplan).
  destruct (select_frames_nonempty im (nw, nh) fps Hfps Hfit)
    as (fr & ds & Hsel & Hne).
  unfold optimize_gif. rewrite Hplan. cbn [Py.bind]. rewrite Hsel.
  cbn [Py.bind fst snd].
  destruct fr as [ | f fr]; [contradiction | ].
  rewrite (quantize_all_refused colors f fr Hint Hcol). reflexivity.
Qed.

End SaveFacts.

Lemma optimize_gif_save_invariant_witness :
  save_fp
    {| save_self := QuantizeAdaptive (ConvertRGBA (Decoded 0)) 128;
       save_fp := path_of_string "clips/anim.optimized.gif";
       save_all := true;
       append_images := [QuantizeAdaptive (ConvertRGBA (Decoded 5)) 128];
       duration := [83; 83];
       loop_count := 0; optimize := true; disposal := 2; transparency := 0 |}
  = path_of_string "clips/anim.optimized.gif" /\
  path_of_string "clips/anim.optimized.gif" <> path_of_string "clips/anim.gif".
Proof.
  pose proof (optimize_gif_save_invariant
                (fun _ => Ok tt)
                (scenario_b (100, 100) (Decoded 0) Decoded)
                (path_of_string "clips/anim.gif") 480 480 128 12
                {| save_self := QuantizeAdaptive (ConvertRGBA (Decoded 0)) 128;
                   save_fp := path_of_string "clips/anim.optimized.gif";
                   save_all := true;
                   append_images := [QuantizeAdaptive (ConvertRGBA (Decoded 5)) 128];
                   duration := [83; 83];
                   loop_count := 0; optimize := true; disposal := 2;
                   transparency := 0 |}
                (path_of_string "clips/anim.optimized.gif")
                ltac:(vm_compute; reflexivity)) as H.
  split; [exact (proj1 H) | exact (proj1 (proj2 H))].
Defined.

Lemma optimize_gif_returns_witness :
  exists call out,
    optimize_gif (fun _ => Ok tt)
                 (scenario_b (100, 100) (Decoded 0) Decoded)
                 (path_of_string "clips/anim.gif") 480 (-1) 256 (-5)
    = Ok (call, out).
Proof.
  apply (optimize_gif_returns (fun _ => Ok tt)
           (scenario_b (100, 100) (Decoded 0) Decoded)
           (path_of_string "clips/anim.gif") 480 (-1) 256 (-5)).
  - zcmp.
  - zcmp.
  - zcmp.
  - zcmp.
  - lia.
  - discriminate.
  - unfold durations_fit.
    cbn [scenario_b im_frames orig_durations map seq duration_or frame_duration].
    repeat constructor; zcmp.
  - vm_compute. discriminate.
  - reflexivity.
  - reflexivity.
Defined.

Lemma optimize_gif_refuses_colors_witness :
  optimize_gif (fun _ => Ok tt)
               (scenario_b (100, 100) (Decoded 0) Decoded)
               (path_of_string "clips/anim.gif") 480 480 0 12
  = Raise ValueError.
Proof.
  apply (optimize_gif_refuses_colors (fun _ => Ok tt)
           (scenario_b (100, 100) (Decoded 0) Decoded)
           (path_of_string "clips/anim.gif") 480 480 0 12).
  - zcmp.
  - zcmp.
  - zcmp.
  - zcmp.
  - zcmp.
  - left. lia.
  - discriminate.
  - unfold durations_fit.
    cbn [scenario_b im_frames orig_durations map seq duration_or frame_duration].
    repeat constructor; zcmp.
Defined.

(** * [main] *)

Section MainFacts.

Variable path_exists : Path -> bool.
Variable image_open : Path -> result Image.
Variable image_save : SaveCall -> result unit.


(** A frame rate of 0 on the command line is not caught: with an input
    that exists and decodes and a size that can be planned, [main] ends
    with an uncaught [ZeroDivisionError] and nothing is saved. *)
Theorem main_fps_zero_is_uncaught a0 a1 args im :
  path_exists (path_of_string a1) = true ->
  image_open (path_of_string a1) = Ok im ->
  1 <= fst (im_size im) < 2 ^ 53 -> 1 <= snd (im_size im) < 2 ^ 53 ->
  durations_fit (im_frames im) ->
  Z.abs (get_flag args "--max-width" 480) <= 2 ^ 970 ->
  Z.abs (get_flag args "--max-height" 480) <= 2 ^ 970 ->
  get_flag args "--fps" 12 = 0 ->
  main path_exists image_open image_save (a0 :: a1 :: args)
    = Uncaught ZeroDivisionError.
Proof.
  intros Hex Hopen Hw Hh Hfit Hmw Hmh Hfps.
  destruct (plan_size_returns _ _ _ _ Hw Hh Hmw Hmh) as (nw & nh & Hplan).
  destruct (avg_duration_returns _ Hfit) as (n & Hn).
  unfold main. rewrite Hex. cbn [negb]. rewrite Hopen. cbn [Py.bind].
  unfold optimize_gif. rewrite Hplan. cbn [Py.bind].
  unfold select_frames. rewrite Hn. cbn [Py.bind]. rewrite Hfps.
  rewrite target_frame_duration_zero. reflexivity.
Qed.

End MainFacts.


(** The frame rate of the example is written with the Arabic-Indic digit
    zero (the bytes 217 160), which [int] reads as 0. *)
Lemma main_fps_zero_is_uncaught_witness :
  main (fun _ => true)
       (fun _ => Ok (scenario_b (100, 100) (Decoded 0) Decoded))
       (fun _ => Ok tt)
       ["optimize_gif.py"%string; "clips/anim.gif"%string; "--fps"%string;
        String "217" (String "160" "")]
  = Uncaught ZeroDivisionError.
Proof.
  apply (main_fps_zero_is_uncaught (fun _ => true)
           (fun _ => Ok (scenario_b (100, 100) (Decoded 0) Decoded))
           (fun _ => Ok tt)
           "optimize_gif.py"%string "clips/anim.gif"%string
           ["--fps"%string; String "217" (String "160" "")]
           (scenario_b (100, 100) (Decoded 0) Decoded)).
  - reflexivity.
  - reflexivity.
  - zcmp.
  - zcmp.
  - unfold durations_fit.
    cbn [scenario_b im_frames orig_durations map seq duration_or frame_duration].
    repeat constructor; zcmp.
  - zcmp.
  - zcmp.
  - vm_compute. reflexivity.
Defined.

Local Open Scope Z_scope.

(** * No upscaling: bounds that contain the source leave the size alone *)

(** A quotient of at least 1 rounds to 1.0 or above it. *)
Lemma SFdiv_ge_one pa pb :
  Zpos pb <= Zpos pa -> Zpos pa <= 2 ^ 1023 * Zpos pb ->
  let x := SFdiv prec emax (S754_finite false pa 0) (S754_finite false pb 0) in
  is_finite x = true /\ (x = one \/ SFltb one x = true).
Proof.
  intros Hge Hle x. subst x.
  destruct (SFdiv_spec false pa false pb) as (m2 & F & -> & Hm2 & HF & Hcan & Hnear & Hcf).
  cbn [xorb].
  assert (Hfin : is_finite (pack false m2 F) = true).
  { apply pack_finite with (B := 1 * 2 ^ 1023); try assumption.
    - apply near_upper with (N := Zpos pa) (D := Zpos pb); try assumption; try lia.
    - exact pow2_1023_lt. }
  split; [exact Hfin | ].
  assert (Hlow : F < 0 -> 2 ^ (- F) <= m2).
  { intro Hneg. destruct Hnear as [_ HU].
    rewrite (pow2p_nonpos F), (pow2p_nonneg (- F)) in HU by lia.
    assert (0 < 2 ^ (- F)) by (apply Z.pow_pos_nonneg; lia).
    assert (H1 : 2 ^ (- F) * Zpos pb < (m2 + 1) * Zpos pb) by nia.
    apply Z.mul_lt_mono_pos_r in H1; lia. }
  revert Hfin. unfold pack.
  destruct (Z.eqb_spec m2 0) as [-> | Hne].
  { exfalso. destruct Hcan as [-> | Hc]; [ | change (2 ^ 52) with 4503599627370496 in Hc; lia].
    specialize (Hlow ltac:(lia)).
    assert (0 < 2 ^ (- -1074)) by (apply Z.pow_pos_nonneg; lia). lia. }
  assert (Hcmp : forall m e, 0 < m -> (-52 < e \/ (e = -52 /\ 2 ^ 52 <= m)) ->
             S754_finite false (Z.to_pos m) e = one \/
             SFltb one (S754_finite false (Z.to_pos m) e) = true).
  { intros m e Hm [He | [-> Hm52]].
    - right. unfold SFltb, SFcompare, one.
      destruct (Z.compare_spec (-52) e); first [lia | reflexivity].
    - destruct (Z.eq_dec m (2 ^ 52)) as [-> | Hne52]; [left; reflexivity | right].
      unfold SFltb, SFcompare, one. rewrite Z.compare_refl.
      rewrite Pos.compare_cont_spec.
      assert (Hlt : (4503599627370496 < Z.to_pos m)%positive).
      { change (2 ^ 52) with 4503599627370496 in *. lia. }
      apply Pos.compare_lt_iff in Hlt. rewrite Hlt. reflexivity. }
  assert (H53 : F < -52 -> m2 = 2 ^ 53 /\ F = -53).
  { intro Hlt. specialize (Hlow ltac:(lia)).
    pose proof (Z.pow_le_mono_r 2 53 (- F) ltac:(lia) ltac:(lia)) as Hp.
    split; [lia | ].
    destruct (Z.eq_dec F (-53)) as [ | Hne53]; [assumption | exfalso].
    pose proof (Z.pow_le_mono_r 2 54 (- F) ltac:(lia) ltac:(lia)) as Hp'.
    change (2 ^ 54) with 18014398509481984 in Hp'.
    change (2 ^ 53) with 9007199254740992 in *. lia. }
  destruct (Z.ltb_spec m2 (2 ^ 53)) as [Hlt | Hge53].
  - destruct (F <=? 971); [ | discriminate]. intros _.
    apply Hcmp; [lia | ].
    destruct (Z_lt_le_dec F (-52)) as [Hs | Hs]; [destruct (H53 Hs); lia | ].
    destruct (Z.eq_dec F (-52)) as [-> | Hn]; [right | left; lia].
    split; [reflexivity | ]. destruct Hcan as [ | Hc]; [lia | exact Hc].
  - destruct (F + 1 <=? 971); [ | discriminate]. intros _.
    assert (E : m2 = 2 ^ 53) by lia. subst m2.
    change (2 ^ 53 / 2) with (2 ^ 52).
    apply Hcmp; [reflexivity | ].
    destruct (Z_lt_le_dec F (-52)) as [Hs | Hs].
    + destruct (H53 Hs) as [_ ->]. right. split; [reflexivity | lia].
    + left. lia.
Qed.

Lemma int_truediv_ge_one a b :
  0 < b <= a -> a <= 2 ^ 1023 * b ->
  exists x, int_truediv a b = Ok x /\ (x = one \/ SFltb one x = true).
Proof.
  intros Hab Hle. unfold int_truediv.
  destruct (Z.eqb_spec b 0) as [ | _]; [lia | ].
  destruct a as [ | pa | pa]; try lia. destruct b as [ | pb | pb]; try lia.
  cbn [raw_of_int].
  destruct (SFdiv_ge_one pa pb ltac:(lia) Hle) as [Hfin Hone].
  rewrite Hfin. eexists. split; [reflexivity | exact Hone].
Qed.

Lemma min3_is_one a b :
  (a = one \/ SFltb one a = true) -> (b = one \/ SFltb one b = true) ->
  min3 a b one = one.
Proof.
  intros Ha Hb. unfold min3.
  destruct (SFltb b a).
  - destruct Hb as [-> | ->]; reflexivity.
  - destruct Ha as [-> | ->]; reflexivity.
Qed.

(** Multiplying by 1.0 is exact. *)
Lemma int_mul_float_one w :
  0 < w < 2 ^ 53 ->
  exists y, int_mul_float w one = Ok y /\ int_of_float y = Ok w.
Proof.
  intro Hw. unfold int_mul_float.
  destruct (float_of_int_exact w Hw) as (pm & ew & -> & Hew & Hpm & Hpmb).
  cbn [Py.bind]. eexists. split; [reflexivity | ].
  unfold one.
  destruct (SFmul_spec false pm ew false 4503599627370496 (-52) ltac:(lia))
    as (m2 & F & -> & Hm2 & Hcan & Hnear & Hcf).
  cbn [xorb] in *.
  rewrite (pow2p_nonpos (ew + -52)) in Hnear, Hcf by lia.
  rewrite (pow2p_nonneg (- (ew + -52))) in Hnear, Hcf by lia.
  assert (E : Zpos pm * 4503599627370496 * 1 = w * 2 ^ (- (ew + -52))).
  { rewrite Hpm. replace (- (ew + -52)) with (- ew + 52) by lia.
    rewrite Z.pow_add_r by lia. change (2 ^ 52) with 4503599627370496. lia. }
  rewrite E in Hnear, Hcf.
  assert (HD : 0 < 2 ^ (- (ew + -52))) by (apply Z.pow_pos_nonneg; lia).
  assert (Hfin : is_finite (pack false m2 F) = true).
  { apply pack_finite with (B := w * 2 ^ 0); try assumption.
    - apply near_upper with (N := w * 2 ^ (- (ew + -52))) (D := 2 ^ (- (ew + -52)));
        try assumption; try lia.
    - rewrite Z.pow_0_r. assert (2 ^ 53 < 2 ^ 1024) by reflexivity. lia. }
  rewrite int_of_float_pack by assumption.
  rewrite (near_exact w _ F m2 Hw HD Hnear Hcf). reflexivity.
Qed.

(** When the bounds are at least the source's dimensions, the planned
    size is the source's size and no frame is resampled. *)
Theorem plan_size_keeps_size_within_bounds w h max_width max_height :
  1 <= w < 2 ^ 53 -> 1 <= h < 2 ^ 53 ->
  w <= max_width <= 2 ^ 1023 -> h <= max_height <= 2 ^ 1023 ->
  plan_size w h max_width max_height = Ok (w, h) /\
  forall f, output_frame (w, h) (w, h) f = ConvertRGBA (frame_data f).
Proof.
  intros Hw Hh Hmw Hmh.
  assert (Hp : 0 < 2 ^ 1023) by reflexivity.
  destruct (int_truediv_ge_one max_width w ltac:(lia) ltac:(nia)) as (sw & Hsw & Hsw1).
  destruct (int_truediv_ge_one max_height h ltac:(lia) ltac:(nia)) as (sh & Hsh & Hsh1).
  destruct (int_mul_float_one w ltac:(lia)) as (fw & Hfw & Hnw).
  destruct (int_mul_float_one h ltac:(lia)) as (fh & Hfh & Hnh).
  split.
  - unfold plan_size. rewrite Hsw, Hsh. cbn [Py.bind].
    rewrite (min3_is_one sw sh Hsw1 Hsh1).
    rewrite Hfw. cbn [Py.bind]. rewrite Hnw. cbn [Py.bind].
    rewrite Hfh. cbn [Py.bind]. rewrite Hnh. cbn [Py.bind].
    do 2 f_equal; lia.
  - intro f. unfold output_frame, resize_to, size_eqb. cbn [fst snd].
    now rewrite !Z.eqb_refl.
Qed.

Lemma plan_size_keeps_size_witness :
  plan_size 320 200 480 480 = Ok (320, 200) /\
  forall f, output_frame (320, 200) (320, 200) f = ConvertRGBA (frame_data f).
Proof.
  apply (plan_size_keeps_size_within_bounds 320 200 480 480); zcmp.
Defined.
(** * The planned size fits the bounds (lines 28-29)

    The doubles are read as rationals; the quotient of line 28 and the
    product of line 29 each exceed the exact value by less than one part
    in [2 ^ 52]. *)

Local Open Scope Q_scope.

Lemma P_pos e : 0 < Qpower 2 e.
Proof. apply Qpower_0_lt. reflexivity. Qed.

Lemma P_add a b : Qpower 2 (a + b) == Qpower 2 a * Qpower 2 b.
Proof. apply Qpower_plus. discriminate. Qed.

Lemma P_inject n : (0 <= n)%Z -> inject_Z (2 ^ n) == Qpower 2 n.
Proof. intro Hn. rewrite Zpower_Qpower by assumption. reflexivity. Qed.

Lemma P_opp e : Qpower 2 e * Qpower 2 (- e) == 1.
Proof.
  rewrite <- P_add. replace (e + - e)%Z with 0%Z by lia. reflexivity.
Qed.

Lemma inject_pow2p F :
  inject_Z (pow2p F) == Qpower 2 F * inject_Z (pow2p (- F)).
Proof.
  destruct (Z_lt_le_dec F 0) as [Hneg | Hpos].
  - rewrite (pow2p_nonpos F), (pow2p_nonneg (- F)) by lia.
    rewrite P_inject by lia. rewrite P_opp. reflexivity.
  - rewrite (pow2p_nonneg F), (pow2p_nonpos (- F)) by lia.
    rewrite P_inject by lia. change (inject_Z 1) with 1. ring.
Qed.

Lemma inject_pow2p_pos F : 0 < inject_Z (pow2p F).
Proof.
  change 0 with (inject_Z 0). rewrite <- Zlt_Qlt. apply pow2p_pos.
Qed.

Lemma near_Q N D F m :
  (0 < D)%Z -> near N D F m ->
  (inject_Z m - 1) * Qpower 2 F * inject_Z D < inject_Z N /\
  inject_Z N < (inject_Z m + 1) * Qpower 2 F * inject_Z D.
Proof.
  intros HD [HL HU].
  rewrite Zlt_Qlt in HL. rewrite Zlt_Qlt in HU.
  rewrite !inject_Z_mult in HL, HU.
  unfold Z.sub in HL. rewrite inject_Z_plus in HL, HU.
  change (inject_Z (- (1))) with (- (1)) in HL. change (inject_Z 1) with 1 in HU.
  rewrite (inject_pow2p F) in HL, HU.
  pose proof (inject_pow2p_pos (- F)) as Hp.
  pose proof (P_pos F) as HP.
  set (c := inject_Z (pow2p (- F))) in *.
  set (pf := Qpower 2 F) in *.
  set (d := inject_Z D) in *. set (n := inject_Z N) in *. set (mm := inject_Z m) in *.
  split.
  - apply Qmult_lt_r with (z := c); [assumption | ].
    eapply Qle_lt_trans; [ | exact HL].
    apply Qle_lteq. right. ring.
  - apply Qmult_lt_r with (z := c); [assumption | ].
    eapply Qlt_le_trans; [exact HU | ].
    apply Qle_lteq. right. ring.
Qed.

Lemma canonical_Q N D F :
  canonical_for N D F ->
  F = (-1074)%Z \/ inject_Z (2 ^ 52) * Qpower 2 F * inject_Z D <= inject_Z N.
Proof.
  intros [HF | HC]; [now left | right].
  rewrite Zle_Qle in HC. rewrite !inject_Z_mult in HC.
  rewrite (inject_pow2p F) in HC.
  pose proof (inject_pow2p_pos (- F)) as Hp.
  set (c := inject_Z (pow2p (- F))) in *.
  apply Qmult_le_r with (z := c); [assumption | ].
  eapply Qle_trans; [ | exact HC].
  apply Qle_lteq. right. ring.
Qed.

Lemma pack_value m F :
  (0 <= m <= 2 ^ 53)%Z -> is_finite (pack false m F) = true ->
  value (pack false m F) == inject_Z m * Qpower 2 F.
Proof.
  intros Hm. unfold pack.
  destruct (Z.eqb_spec m 0) as [-> | Hne].
  - intros _. cbn [value]. change (inject_Z 0) with 0. ring.
  - destruct (Z.ltb_spec m (2 ^ 53)).
    + destruct (F <=? 971)%Z; [ | discriminate]. intros _.
      cbn [value]. rewrite Z2Pos.id by lia. ring.
    + destruct (F + 1 <=? 971)%Z; [ | discriminate]. intros _.
      assert (m = 2 ^ 53)%Z as -> by lia.
      cbn [value]. rewrite P_add.
      change (inject_Z (Z.pos (Z.to_pos (2 ^ 53 / 2)))) with (inject_Z (2 ^ 52)).
      change (Qpower 2 1) with 2.
      change (inject_Z (2 ^ 53)) with (2 * inject_Z (2 ^ 52)). ring.
Qed.

Lemma pack_canonical m F :
  (0 <= m <= 2 ^ 53)%Z -> (-1074 <= F)%Z -> (F = -1074 \/ 2 ^ 52 <= m)%Z ->
  is_finite (pack false m F) = true -> canonical (pack false m F).
Proof.
  intros Hm HF Hc. unfold pack.
  destruct (Z.eqb_spec m 0) as [-> | Hne]; [intros _; exact I | ].
  destruct (Z.ltb_spec m (2 ^ 53)).
  - destruct (F <=? 971)%Z; [ | discriminate]. intros _.
    cbn [canonical]. rewrite Z2Pos.id by lia. tauto.
  - destruct (F + 1 <=? 971)%Z; [ | discriminate]. intros _.
    assert (m = 2 ^ 53)%Z as -> by lia.
    cbn [canonical].
    change (Z.pos (Z.to_pos (2 ^ 53 / 2))) with (2 ^ 52)%Z.
    repeat split; lia.
Qed.

Lemma value_nonneg x : canonical x -> 0 <= value x.
Proof.
  destruct x as [s | s | | s m e]; cbn [canonical value]; try tauto;
    try (intros _; apply Qle_refl).
  intros (-> & _). pose proof (P_pos e) as HP.
  assert (0 < inject_Z (Z.pos m)) by reflexivity.
  nra.
Qed.

(** [int(x)] never exceeds [x] for a double that is not negative. *)
Lemma int_of_float_le_value x n :
  sign_of x = false -> int_of_float x = Ok n -> inject_Z n <= value x.
Proof.
  destruct x as [s | s | | s m e]; cbn [sign_of value int_of_float];
    try discriminate.
  - intros _ H. injection H as <-. apply Qle_refl.
  - intros -> H. injection H as <-. cbn [cond_Zopp].
    destruct (Z_lt_le_dec e 0) as [Hneg | Hpos].
    + rewrite Z.shiftl_div_pow2 by lia.
      assert (Hd : (Z.pos m / 2 ^ (- e) * 2 ^ (- e) <= Z.pos m)%Z).
      { pose proof (Z.mul_div_le (Z.pos m) (2 ^ (- e))
                      ltac:(apply Z.pow_pos_nonneg; lia)). lia. }
      rewrite Zle_Qle, inject_Z_mult in Hd.
      rewrite P_inject in Hd by lia.
      pose proof (P_opp e) as Ho. pose proof (P_pos e) as HP.
      pose proof (P_pos (- e)) as HP'.
      set (q := inject_Z (Z.pos m / 2 ^ (- e))) in *.
      set (mm := inject_Z (Z.pos m)) in *.
      set (a := Qpower 2 e) in *. set (b := Qpower 2 (- e)) in *.
      apply Qmult_le_r with (z := b); [assumption | ].
      eapply Qle_trans; [exact Hd | ].
      assert (E : 1 * mm * a * b == mm).
      { transitivity (mm * (a * b)); [ring | rewrite Ho; ring]. }
      rewrite E. apply Qle_refl.
    + rewrite Z.shiftl_mul_pow2 by lia. rewrite inject_Z_mult.
      rewrite P_inject by lia. apply Qle_lteq. right. ring.
Qed.

Lemma value_lt_exp m1 e1 m2 e2 :
  (Z.pos m1 < 2 ^ 53)%Z -> (2 ^ 52 <= Z.pos m2)%Z -> (e1 < e2)%Z ->
  inject_Z (Z.pos m1) * Qpower 2 e1 < inject_Z (Z.pos m2) * Qpower 2 e2.
Proof.
  intros H1 H2 He.
  replace e2 with ((e2 - e1) + e1)%Z by lia. rewrite P_add.
  assert (Hk : 2 <= Qpower 2 (e2 - e1)).
  { change 2 with (Qpower 2 1) at 1. apply Qpower_le_compat_l; [lia | ].
    discriminate. }
  pose proof (P_pos e1) as HP.
  rewrite Zlt_Qlt in H1. rewrite Zle_Qle in H2.
  change (inject_Z (2 ^ 53)) with (2 * inject_Z (2 ^ 52)) in H1.
  set (c := inject_Z (2 ^ 52)) in *.
  assert (Hc : 0 < c) by reflexivity.
  set (a := inject_Z (Z.pos m1)) in *. set (b := inject_Z (Z.pos m2)) in *.
  set (k := Qpower 2 (e2 - e1)) in *. set (p := Qpower 2 e1) in *.
  rewrite Qmult_assoc. apply Qmult_lt_r; [assumption | ].
  nra.
Qed.

(** The order of the doubles is the order of their values. *)
Lemma SFcompare_value x y :
  canonical x -> canonical y ->
  match SFcompare x y with
  | Some Lt => value x < value y
  | Some Eq => value x == value y
  | Some Gt => value y < value x
  | None => False
  end.
Proof.
  destruct x as [sx | sx | | sx mx ex]; cbn [canonical]; try tauto;
    destruct y as [sy | sy | | sy my ey]; cbn [canonical]; try tauto.
  - intros _ _. cbn. reflexivity.
  - intros _ (-> & _). cbn [SFcompare value].
    pose proof (P_pos ey). assert (0 < inject_Z (Z.pos my)) by reflexivity. nra.
  - intros (-> & _) _. cbn [SFcompare value].
    pose proof (P_pos ex). assert (0 < inject_Z (Z.pos mx)) by reflexivity. nra.
  - intros (-> & Hmx & Hex & Hcx) (-> & Hmy & Hey & Hcy).
    cbn [SFcompare value].
    assert (Ex : 1 * inject_Z (Z.pos mx) * Qpower 2 ex
                 == inject_Z (Z.pos mx) * Qpower 2 ex) by ring.
    assert (Ey : 1 * inject_Z (Z.pos my) * Qpower 2 ey
                 == inject_Z (Z.pos my) * Qpower 2 ey) by ring.
    destruct (Z.compare_spec ex ey) as [-> | Hlt | Hgt].
    + pose proof (P_pos ey) as HP.
      change (Pos.compare_cont Eq mx my) with (Pos.compare mx my).
      destruct (Pos.compare_spec mx my) as [-> | Hm | Hm]; cbv beta iota.
      * reflexivity.
      * rewrite Ex, Ey.
        apply Qmult_lt_r; [assumption | ]. rewrite <- Zlt_Qlt. lia.
      * rewrite Ex, Ey.
        apply Qmult_lt_r; [assumption | ]. rewrite <- Zlt_Qlt. lia.
    + cbv beta iota. rewrite Ex, Ey. apply value_lt_exp; lia.
    + cbv beta iota. rewrite Ex, Ey. apply value_lt_exp; lia.
Qed.

Lemma canonical_one : canonical one.
Proof.
  unfold one. cbn [canonical]. change (2 ^ 53)%Z with 9007199254740992%Z.
  change (2 ^ 52)%Z with 4503599627370496%Z. repeat split; lia.
Qed.

(** [min(a, b, 1.0)] is canonical and at most each of its arguments. *)
Lemma min3_value a b :
  canonical a -> canonical b ->
  canonical (min3 a b one) /\
  value (min3 a b one) <= value a /\ value (min3 a b one) <= value b.
Proof.
  intros Ha Hb. unfold min3.
  assert (Hm : canonical (if SFltb b a then b else a) /\
               value (if SFltb b a then b else a) <= value a /\
               value (if SFltb b a then b else a) <= value b).
  { pose proof (SFcompare_value b a Hb Ha) as H. unfold SFltb.
    destruct (SFcompare b a) as [[ | | ] | ]; try tauto; repeat split;
      try assumption; lra. }
  destruct Hm as (Hc & H1 & H2).
  set (m := if SFltb b a then b else a) in *.
  pose proof (SFcompare_value one m canonical_one Hc) as H. unfold SFltb.
  destruct (SFcompare one m) as [[ | | ] | ]; try tauto; repeat split;
    try assumption; try apply canonical_one; lra.
Qed.

Lemma P_least_small : Qpower 2 (-1074) * inject_Z (2 ^ 53) <= ulp_ratio.
Proof. apply Qle_bool_iff. vm_compute. reflexivity. Qed.

(** The quotient of line 28 is canonical and exceeds the exact quotient by
    less than one part in [2 ^ 52]. *)
Lemma int_truediv_value a b q :
  (0 < a)%Z -> (0 < b < 2 ^ 53)%Z -> int_truediv a b = Ok q ->
  canonical q /\ value q * inject_Z b < inject_Z a * (1 + ulp_ratio).
Proof.
  intros Ha Hb. unfold int_truediv.
  destruct (Z.eqb_spec b 0) as [ | _]; [lia | ].
  destruct a as [ | pa | pa]; try lia. destruct b as [ | pb | pb]; try lia.
  cbn [raw_of_int].
  destruct (SFdiv_spec false pa false pb)
    as (m2 & F & -> & Hm2 & HF & Hcan & Hnear & Hcf).
  cbn [xorb].
  destruct (is_finite (pack false m2 F)) eqn:Hfin; [ | discriminate].
  intro H. injection H as <-.
  split; [apply pack_canonical; assumption | ].
  rewrite (pack_value m2 F Hm2 Hfin).
  destruct (near_Q (Z.pos pa) (Z.pos pb) F m2 ltac:(lia) Hnear) as [HL _].
  apply canonical_Q in Hcf.
  pose proof (P_pos F) as HP.
  assert (Hb' : inject_Z (Z.pos pb) <= inject_Z (2 ^ 53)).
  { rewrite <- Zle_Qle. lia. }
  assert (Hb0 : 0 < inject_Z (Z.pos pb)) by reflexivity.
  assert (Ha1 : 1 <= inject_Z (Z.pos pa)).
  { change 1 with (inject_Z 1). rewrite <- Zle_Qle. lia. }
  assert (Hsmall : Qpower 2 F * inject_Z (Z.pos pb)
                   <= ulp_ratio * inject_Z (Z.pos pa)).
  { destruct Hcf as [-> | Hcf].
    - pose proof P_least_small as Hs.
      pose proof (P_pos (-1074)) as HP'.
      set (p := Qpower 2 (-1074)) in *.
      assert (Hpb : p * inject_Z (Z.pos pb) <= p * inject_Z (2 ^ 53)).
      { rewrite !(Qmult_comm p). apply Qmult_le_r; assumption. }
      set (u := p * inject_Z (Z.pos pb)) in *.
      set (v := p * inject_Z (2 ^ 53)) in *.
      unfold ulp_ratio in *. lra.
    - change (inject_Z (2 ^ 52)) with (4503599627370496 # 1) in Hcf.
      unfold ulp_ratio. lra. }
  lra.
Qed.

Lemma int_of_float_Ok_finite x n : int_of_float x = Ok n -> is_finite x = true.
Proof. destruct x; cbn; try discriminate; reflexivity. Qed.

Lemma pack_sign_false m F :
  is_finite (pack false m F) = true -> sign_of (pack false m F) = false.
Proof.
  unfold pack.
  destruct (m =? 0)%Z; [reflexivity | ].
  destruct (m <? 2 ^ 53)%Z.
  - destruct (F <=? 971)%Z; [reflexivity | discriminate].
  - destruct (F + 1 <=? 971)%Z; [reflexivity | discriminate].
Qed.

(** [int(w * x)] exceeds the exact product by less than one part in
    [2 ^ 52], up to the least positive double. *)
Lemma int_mul_float_int_bound w x y n :
  (0 < w < 2 ^ 53)%Z -> canonical x ->
  int_mul_float w x = Ok y -> int_of_float y = Ok n ->
  inject_Z n < inject_Z w * value x * (1 + ulp_ratio) + Qpower 2 (-1074).
Proof.
  intros Hw Hx. unfold int_mul_float.
  destruct (float_of_int_exact w Hw) as (pm & ew & -> & Hew & Hpm & Hpmb).
  cbn [Py.bind]. intro H.
  assert (E := f_equal (fun r => match r with Ok v => v | Raise _ => y end) H).
  cbv beta iota in E. subst y. clear H.
  pose proof (P_pos (-1074)) as HP0.
  destruct x as [s | s | | s ps es]; cbn [canonical] in Hx; try tauto.
  - cbn [SFmul int_of_float value]. intro H. injection H as <-.
    change (inject_Z 0) with 0. lra.
  - destruct Hx as (-> & _).
    destruct (SFmul_spec false pm ew false ps es ltac:(lia))
      as (m3 & F & -> & Hm3 & Hcan & Hnear & Hcf).
    cbn [xorb]. intro Hn.
    pose proof (int_of_float_Ok_finite _ _ Hn) as Hfin.
    pose proof (int_of_float_le_value _ _ (pack_sign_false m3 F Hfin) Hn) as Hle.
    rewrite (pack_value m3 F Hm3 Hfin) in Hle.
    set (e := (ew + es)%Z) in *.
    destruct (near_Q _ (pow2p (- e)) F m3 (pow2p_pos _) Hnear) as [HL _].
    apply canonical_Q in Hcf.
    rewrite !inject_Z_mult in HL, Hcf. rewrite (inject_pow2p e) in HL, Hcf.
    pose proof (inject_pow2p_pos (- e)) as Hd.
    set (d := inject_Z (pow2p (- e))) in *.
    assert (EX : inject_Z (Z.pos pm) * inject_Z (Z.pos ps) * Qpower 2 e
                 == inject_Z w * value (S754_finite false ps es)).
    { cbn [value]. rewrite Hpm, inject_Z_mult. rewrite P_inject by lia.
      unfold e. rewrite P_add.
      transitivity (inject_Z w * inject_Z (Z.pos ps) * Qpower 2 es
                    * (Qpower 2 ew * Qpower 2 (- ew))); [ring | ].
      rewrite P_opp. ring. }
    assert (X0 : 0 <= inject_Z w * value (S754_finite false ps es)).
    { rewrite <- EX. pose proof (P_pos e).
      assert (0 < inject_Z (Z.pos pm)) by reflexivity.
      assert (0 < inject_Z (Z.pos ps)) by reflexivity.
      apply Qmult_le_0_compat; [apply Qmult_le_0_compat | ]; lra. }
    set (X := inject_Z w * value (S754_finite false ps es)) in *.
    pose proof (P_pos F) as HPF.
    set (pf := Qpower 2 F) in *.
    set (A := inject_Z (Z.pos pm) * inject_Z (Z.pos ps) * Qpower 2 e) in *.
    assert (HL' : (inject_Z m3 - 1) * pf < A).
    { apply Qmult_lt_r with (z := d); [assumption | ].
      eapply Qlt_le_trans; [exact HL | ].
      apply Qle_lteq. right. unfold A. ring. }
    assert (Hpf : pf <= Qpower 2 (-1074) \/ pf <= ulp_ratio * A).
    { destruct Hcf as [-> | Hcf]; [left; apply Qle_refl | right].
      assert (Hc' : inject_Z (2 ^ 52) * pf <= A).
      { apply Qmult_le_r with (z := d); [assumption | ].
        eapply Qle_trans; [exact Hcf | ].
        apply Qle_lteq. right. unfold A. ring. }
      change (inject_Z (2 ^ 52)) with (4503599627370496 # 1) in Hc'.
      unfold ulp_ratio. lra. }
    clearbody A X pf d.
    unfold ulp_ratio in *.
    destruct Hpf; lra.
Qed.

Lemma scaled_axis_fits w bound s scale fw n :
  (0 < w < 2 ^ 53)%Z -> (1 <= bound <= 2 ^ 50)%Z ->
  int_truediv bound w = Ok s -> canonical scale -> value scale <= value s ->
  int_mul_float w scale = Ok fw -> int_of_float fw = Ok n ->
  (n <= bound)%Z.
Proof.
  intros Hw Hb Hs Hc Hle Hfw Hn.
  destruct (int_truediv_value bound w s ltac:(lia) Hw Hs) as [Hcs Hq].
  pose proof (int_mul_float_int_bound w scale fw n Hw Hc Hfw Hn) as Hb1.
  pose proof (value_nonneg _ Hc) as H0.
  assert (Hw0 : 0 < inject_Z w).
  { change 0 with (inject_Z 0). rewrite <- Zlt_Qlt. lia. }
  assert (Hprod : inject_Z w * value scale <= value s * inject_Z w).
  { rewrite (Qmult_comm (inject_Z w)). apply Qmult_le_r; assumption. }
  assert (Hbound : inject_Z bound <= inject_Z (2 ^ 50)).
  { rewrite <- Zle_Qle. lia. }
  change (inject_Z (2 ^ 50)) with (1125899906842624 # 1) in Hbound.
  assert (Hb0 : 1 <= inject_Z bound).
  { change 1 with (inject_Z 1). rewrite <- Zle_Qle. lia. }
  pose proof P_least_small as Hs0. pose proof (P_pos (-1074)) as Hp0.
  change (inject_Z (2 ^ 53)) with (9007199254740992 # 1) in Hs0.
  set (p0 := Qpower 2 (-1074)) in *.
  set (X1 := inject_Z w * value scale) in *.
  set (X2 := value s * inject_Z w) in *.
  assert (Hfin : inject_Z n < inject_Z bound + 1).
  { clearbody p0 X1 X2. unfold ulp_ratio in *. 
    set (B := inject_Z bound) in *. set (N := inject_Z n) in *.
    clearbody B N. clear - Hb1 Hq Hprod Hbound Hb0 Hs0 Hp0. nra. }
  change 1 with (inject_Z 1) in Hfin. rewrite <- inject_Z_plus in Hfin.
  rewrite <- Zlt_Qlt in Hfin. lia.
Qed.

Local Close Scope Q_scope.

(** With bounds of at least 1 (and at most [2 ^ 50]), the planned size fits
    both the bounds and the source, on each axis, and is at least 1x1. *)
Theorem plan_size_fits_bounds w h max_width max_height :
  1 <= w < 2 ^ 53 -> 1 <= h < 2 ^ 53 ->
  1 <= max_width <= 2 ^ 50 -> 1 <= max_height <= 2 ^ 50 ->
  exists nw nh,
    plan_size w h max_width max_height = Ok (nw, nh) /\
    1 <= nw <= Z.min w max_width /\ 1 <= nh <= Z.min h max_height.
Proof.
  intros Hw Hh Hmw Hmh.
  assert (H50 : 2 ^ 50 <= 2 ^ 1023) by (apply Z.pow_le_mono_r; lia).
  destruct (plan_size_positive w h max_width max_height Hw Hh
              ltac:(lia) ltac:(lia)) as (nw & nh & Hplan & Hnw & Hnh).
  exists nw, nh. split; [exact Hplan | ].
  unfold plan_size in Hplan.
  destruct (int_truediv max_width w) as [sw | ] eqn:Hsw; [ | discriminate].
  destruct (int_truediv max_height h) as [sh | ] eqn:Hsh; [ | discriminate].
  cbn [Py.bind] in Hplan.
  destruct (int_truediv_value max_width w sw ltac:(lia) ltac:(lia) Hsw) as [Hcw _].
  destruct (int_truediv_value max_height h sh ltac:(lia) ltac:(lia) Hsh) as [Hch _].
  destruct (min3_value sw sh Hcw Hch) as (Hc & Hlw & Hlh).
  set (scale := min3 sw sh one) in *.
  destruct (int_mul_float w scale) as [fw | ] eqn:Hfw; [ | discriminate].
  cbn [Py.bind] in Hplan.
  destruct (int_of_float fw) as [n1 | ] eqn:Hn1; [ | discriminate].
  cbn [Py.bind] in Hplan.
  destruct (int_mul_float h scale) as [fh | ] eqn:Hfh; [ | discriminate].
  cbn [Py.bind] in Hplan.
  destruct (int_of_float fh) as [n2 | ] eqn:Hn2; [ | discriminate].
  cbn [Py.bind] in Hplan.
  pose proof (scaled_axis_fits w max_width sw scale fw n1 ltac:(lia) Hmw
                Hsw Hc Hlw Hfw Hn1) as H1.
  pose proof (scaled_axis_fits h max_height sh scale fh n2 ltac:(lia) Hmh
                Hsh Hc Hlh Hfh Hn2) as H2.
  assert (nw = Z.max 1 n1 /\ nh = Z.max 1 n2) as [-> ->].
  { split; congruence. }
  lia.
Qed.

Lemma plan_size_fits_bounds_witness :
  exists nw nh,
    plan_size 1920 1080 480 480 = Ok (nw, nh) /\
    1 <= nw <= Z.min 1920 480 /\ 1 <= nh <= Z.min 1080 480.
Proof.
  apply (plan_size_fits_bounds 1920 1080 480 480); zcmp.
Defined.
Local Open Scope Z_scope.

(** * Integers written in decimal parse to themselves *)

Lemma of_uint_acc_value d p :
  Zpos (Pos.of_uint_acc d p) = uint_value d (Zpos p).
Proof.
  revert p. induction d; intro p; cbn [Pos.of_uint_acc uint_value];
    try reflexivity; rewrite IHd; f_equal; lia.
Qed.

Lemma of_uint_value d : Z.of_N (Pos.of_uint d) = uint_value d 0.
Proof.
  induction d; cbn [Pos.of_uint uint_value]; try reflexivity;
    try exact IHd; cbn [Z.of_N]; apply of_uint_acc_value.
Qed.

Lemma uint_value_lower d v :
  0 <= v -> v * 10 ^ Z.of_nat (Decimal.nb_digits d) <= uint_value d v.
Proof.
  revert v. induction d; intros v Hv; cbn [Decimal.nb_digits uint_value];
    [rewrite Z.pow_0_r; lia | .. ];
    rewrite Nat2Z.inj_succ, Z.pow_succ_r by lia;
    (eapply Z.le_trans; [ | apply IHd; lia]);
    assert (0 < 10 ^ Z.of_nat (Decimal.nb_digits d))
      by (apply Z.pow_pos_nonneg; lia);
    nia.
Qed.

(** The digits of a positive number do not start with a zero. *)
Lemma to_uint_head p d : Pos.to_uint p <> Decimal.D0 d.
Proof.
  pose proof (DecimalPos.Unsigned.to_of (Pos.to_uint p)) as Hn.
  rewrite DecimalPos.Unsigned.of_to in Hn. cbn [N.to_uint] in Hn.
  pose proof (DecimalPos.Unsigned.to_uint_nonzero p) as Hz.
  assert (Hh : Decimal.nzhead (Pos.to_uint p) <> Decimal.Nil).
  { intro E. apply Hz. rewrite Hn. now apply DecimalFacts.unorm_0. }
  rewrite (DecimalFacts.unorm_nzhead _ Hh) in Hn. rewrite Hn.
  apply DecimalFacts.nzhead_nonzero.
Qed.

Lemma uint_value_head_lower d v :
  1 <= v -> 10 ^ Z.of_nat (Decimal.nb_digits d) <= uint_value d v.
Proof.
  intro Hv. pose proof (uint_value_lower d v ltac:(lia)) as H.
  assert (0 < 10 ^ Z.of_nat (Decimal.nb_digits d))
    by (apply Z.pow_pos_nonneg; lia).
  nia.
Qed.

Lemma digits_bound d v x :
  1 <= v -> x = uint_value d v -> x < 10 ^ 4300 ->
  0 < Z.of_nat (S (Decimal.nb_digits d)) <= 4300.
Proof.
  intros Hv Hx Hlim.
  pose proof (uint_value_head_lower d v Hv) as Hl. rewrite <- Hx in Hl.
  assert (Hlt : 10 ^ Z.of_nat (Decimal.nb_digits d) < 10 ^ 4300)
    by (eapply Z.le_lt_trans; [exact Hl | exact Hlim]).
  clear - Hlt.
  apply Z.pow_lt_mono_r_iff in Hlt; [ | lia | lia].
  rewrite Nat2Z.inj_succ. lia.
Qed.

Lemma to_uint_digits p :
  Zpos p < 10 ^ 4300 ->
  (0 < Z.of_nat (Decimal.nb_digits (Pos.to_uint p)) <= 4300).
Proof.
  intro Hp.
  pose proof (of_uint_value (Pos.to_uint p)) as Hv.
  rewrite DecimalPos.Unsigned.of_to in Hv. cbn [Z.of_N] in Hv.
  pose proof (DecimalPos.Unsigned.to_uint_nonnil p) as Hnil.
  pose proof (to_uint_head p) as Hhead.
  revert Hv Hnil Hhead.
  destruct (Pos.to_uint p) as [ | d | d | d | d | d | d | d | d | d | d ];
    intros Hv Hnil Hhead;
    try contradiction; try (exfalso; exact (Hhead d eq_refl));
    cbn [Decimal.nb_digits uint_value] in *;
    (eapply digits_bound; [ | exact Hv | exact Hp]); clear; lia.
Qed.

Ltac eval_head_char :=
  match goal with
  | |- context [N_of_ascii ?c] =>
      let x := eval vm_compute in (N_of_ascii c) in
      change (N_of_ascii c) with x
  end.

Ltac scan_step IH :=
  repeat eval_head_char;
  match goal with
  | |- context [if ?b then _ else _] =>
      let x := eval vm_compute in b in change b with x
  end;
  cbv iota;
  match goal with
  | |- context [Z.of_N ?a] =>
      let x := eval vm_compute in (Z.of_N a) in change (Z.of_N a) with x
  end;
  rewrite IH by discriminate;
  rewrite Nat2Z.inj_succ; do 3 f_equal; lia.

Lemma scan_digits_uint d :
  forall v n prev,
    prev <> underscore ->
    scan_digits (bytes_of_string (DecimalString.NilEmpty.string_of_uint d))
                v n prev
    = Some (uint_value d v, n + Z.of_nat (Decimal.nb_digits d), []).
Proof.
  unfold bytes_of_string.
  induction d; intros v n prev Hp;
    cbn [DecimalString.NilEmpty.string_of_uint list_ascii_of_string map
         scan_digits Decimal.nb_digits uint_value].
  - apply N.eqb_neq in Hp. rewrite Hp. cbn [Z.of_nat]. now rewrite Z.add_0_r.
  - scan_step IHd.
  - scan_step IHd.
  - scan_step IHd.
  - scan_step IHd.
  - scan_step IHd.
  - scan_step IHd.
  - scan_step IHd.
  - scan_step IHd.
  - scan_step IHd.
  - scan_step IHd.
Qed.

Lemma bytes_uint_plain d :
  Forall (fun c => (c <? 128)%N = true)
         (bytes_of_string (DecimalString.NilEmpty.string_of_uint d)).
Proof.
  unfold bytes_of_string.
  induction d;
    cbn [DecimalString.NilEmpty.string_of_uint list_ascii_of_string map];
    constructor; (reflexivity || assumption).
Qed.

Lemma bytes_uint_head d :
  d <> Decimal.Nil ->
  exists c rest,
    bytes_of_string (DecimalString.NilEmpty.string_of_uint d) = c :: rest /\
    (48 <= c <= 57)%N.
Proof.
  unfold bytes_of_string.
  destruct d; intro Hd; try contradiction;
    cbn [DecimalString.NilEmpty.string_of_uint list_ascii_of_string map];
    eval_head_char; eexists; eexists; (split; [reflexivity | lia]).
Qed.

(** Bytes below 128 are their own code points. *)
Lemma decode_utf8_plain l :
  Forall (fun c => (c <? 128)%N = true) l -> decode_utf8 l = l.
Proof.
  induction 1 as [ | c l Hc _ IH]; cbn [decode_utf8]; [reflexivity | ].
  now rewrite Hc, IH.
Qed.

Lemma forallb_plain l :
  Forall (fun c => (c <? 128)%N = true) l ->
  forallb (fun ch => (ch <? 128)%N) l = true.
Proof. intro H. apply forallb_forall. now apply Forall_forall. Qed.

(** A text that is digits to its end, with or without a minus sign. *)
Lemma long_from_string_digits c rest v n :
  (48 <= c <= 57)%N -> scan_digits (c :: rest) 0 0 0 = Some (v, n, []) ->
  0 < n <= 4300 ->
  long_from_string (c :: rest) = Some v /\
  long_from_string (45%N :: c :: rest) = Some (- v).
Proof.
  intros Hc Hscan Hn.
  assert (Hsp : c_isspace c = false).
  { unfold c_isspace.
    destruct (N.leb_spec 9 c), (N.leb_spec c 13), (N.eqb_spec c 32);
      cbn; try reflexivity; lia. }
  assert (H43 : (c =? 43)%N = false) by (apply N.eqb_neq; lia).
  assert (H45 : (c =? 45)%N = false) by (apply N.eqb_neq; lia).
  assert (Hus : (c =? underscore)%N = false)
    by (apply N.eqb_neq; unfold underscore; lia).
  assert (Hmax : (int_max_str_digits <? n) = false)
    by (apply Z.ltb_ge; unfold int_max_str_digits; lia).
  assert (Hzero : (n =? 0) = false) by (apply Z.eqb_neq; lia).
  split.
  - unfold long_from_string. cbn [lstrip]. rewrite Hsp, H43, H45.
    cbn [fst snd]. rewrite Hus, Hscan, Hmax, Hzero. reflexivity.
  - unfold long_from_string. cbn [lstrip].
    change (c_isspace 45) with false. cbv iota.
    change ((45 =? 43)%N) with false. change ((45 =? 45)%N) with true.
    cbv iota. cbn [fst snd]. rewrite Hus, Hscan, Hmax, Hzero. reflexivity.
Qed.

Lemma py_int_uint d :
  d <> Decimal.Nil -> 0 < Z.of_nat (Decimal.nb_digits d) <= 4300 ->
  py_int (DecimalString.NilEmpty.string_of_uint d) = Ok (uint_value d 0) /\
  py_int (String "-" (DecimalString.NilEmpty.string_of_uint d))
    = Ok (- uint_value d 0).
Proof.
  intros Hd Hlen.
  pose proof (bytes_uint_plain d) as Hplain.
  destruct (bytes_uint_head d Hd) as (c & rest & Hbytes & Hc).
  pose proof (scan_digits_uint d 0 0 0%N ltac:(discriminate)) as Hscan.
  rewrite Hbytes in Hscan, Hplain. rewrite Z.add_0_l in Hscan.
  destruct (long_from_string_digits c rest _ _ Hc Hscan Hlen) as [Hpos Hneg].
  split.
  - unfold py_int. rewrite Hbytes.
    rewrite (decode_utf8_plain _ Hplain), (forallb_plain _ Hplain).
    now rewrite Hpos.
  - unfold py_int.
    change (bytes_of_string
              (String "-" (DecimalString.NilEmpty.string_of_uint d)))
      with (45%N :: bytes_of_string (DecimalString.NilEmpty.string_of_uint d)).
    rewrite Hbytes.
    assert (Hplain' : Forall (fun ch => (ch <? 128)%N = true) (45%N :: c :: rest))
      by (constructor; [reflexivity | exact Hplain]).
    rewrite (decode_utf8_plain _ Hplain'), (forallb_plain _ Hplain').
    now rewrite Hneg.
Qed.

Lemma py_int_decimal z : Z.abs z < 10 ^ 4300 -> py_int (decimal z) = Ok z.
Proof.
  unfold decimal. intro Hz.
  destruct z as [ | p | p]; cbn [Z.to_int DecimalString.NilZero.string_of_int].
  - vm_compute. reflexivity.
  - pose proof (DecimalPos.Unsigned.to_uint_nonnil p) as Hn.
    pose proof (to_uint_digits p Hz) as Hlen.
    unfold DecimalString.NilZero.string_of_uint.
    destruct (py_int_uint (Pos.to_uint p) Hn Hlen) as [H _].
    destruct (Pos.to_uint p) eqn:E; try contradiction; rewrite H;
      rewrite <- of_uint_value, <- E, DecimalPos.Unsigned.of_to; reflexivity.
  - pose proof (DecimalPos.Unsigned.to_uint_nonnil p) as Hn.
    pose proof (to_uint_digits p Hz) as Hlen.
    unfold DecimalString.NilZero.string_of_uint.
    destruct (py_int_uint (Pos.to_uint p) Hn Hlen) as [_ H].
    destruct (Pos.to_uint p) eqn:E; try contradiction; rewrite H;
      rewrite <- of_uint_value, <- E, DecimalPos.Unsigned.of_to; reflexivity.
Qed.

(** A flag followed by an integer written in decimal (of at most 4300
    digits, the most that [int] converts) has that integer as its value,
    negative ones included, whatever the default. *)
Theorem get_flag_reads_decimal pre nm z post default :
  ~ In nm pre -> Z.abs z < 10 ^ 4300 ->
  get_flag (pre ++ nm :: decimal z :: post) nm default = z.
Proof.
  intros Hnot Hz. unfold get_flag, item.
  rewrite (index_first pre nm (decimal z :: post) Hnot).
  assert (Hnth : nth_error (pre ++ nm :: decimal z :: post)
                           (List.length pre + 1) = Some (decimal z)).
  { rewrite nth_error_app2 by lia.
    replace (List.length pre + 1 - List.length pre)%nat with 1%nat by lia.
    reflexivity. }
  rewrite Hnth. cbn [Py.bind]. rewrite (py_int_decimal z Hz). reflexivity.
Qed.

Lemma get_flag_reads_decimal_witness :
  get_flag (["--colors"%string] ++ "--fps"%string :: decimal (-24) :: []) "--fps" 12
  = -24.
Proof.
  apply (get_flag_reads_decimal ["--colors"%string] "--fps" (-24) [] 12).
  - cbn [In]. intros [H | []]; discriminate H.
  - vm_compute. reflexivity.
Defined.

(** * The early exits of [main] (lines 90-98) *)

Section MainExits.

Variable path_exists : Path -> bool.
Variable image_open : Path -> result Image.
Variable image_save : SaveCall -> result unit.


End MainExits.


(** * [int] on arguments that are not plain decimal numerals *)

(** [int] reads decimal digits of other scripts and skips Unicode white
    space: the Arabic-Indic digits two and four (bytes 217 162 217 164)
    give 24, also after a no-break space (bytes 194 160); it does not skip
    the control character 28, and it refuses a numeral of 4301 digits. *)
Lemma py_int_examples :
  py_int (String "217" (String "162" (String "217" (String "164" ""))))
    = Ok 24 /\
  py_int (String "194" (String "160"
            (String "217" (String "162" (String "217" (String "164" ""))))))
    = Ok 24 /\
  py_int (String "028" "24") = Raise ValueError /\
  py_int "1_000" = Ok 1000 /\
  py_int (string_of_list_ascii (repeat "1"%char 4301)) = Raise ValueError.
Proof. repeat split; vm_compute; reflexivity. Qed.
